(** * Backup catalog, schedule gate and rotation policy of backup.py

    A shallow embedding of [parse_backup_date], [get_existing_backups],
    [should_backup] and [rotate_backups] (src/backup.py), together with the
    parts of Python's [datetime], [re] and [os.path] these functions call.
    A second part adds [backup_app] with the functions of src/config.py and
    src/ssh_utils.py it calls.

    Conventions of the model:
    - a Python exception is a value [Raise e] of the [result] monad;
    - the storage directory of one app is the list of names [os.listdir]
      returns ([None] when the directory does not exist), and the clock
      [datetime.now().date()] is an explicit argument [today];
    - file names are strings of 8-bit characters, in which the regular
      expression class [\d] is exactly ['0'..'9']. *)

From Stdlib Require Import ZArith Lia Ascii String List Sorting.Sorted.
From stdpp Require Import base tactics option list gmap strings sorting.

Local Open Scope Z_scope.

(** ** Exceptions *)

Inductive exn := ValueError | OverflowError | IndexError.

Inductive result (A : Type) :=
  | Ok (a : A)
  | Raise (e : exn).
Arguments Ok {A} a.
Arguments Raise {A} e.

#[global] Instance result_ret : MRet result := fun A a => Ok a.

#[global] Instance result_bind : MBind result := fun A B k r =>
  match r with
  | Ok a => k a
  | Raise e => Raise e
  end.

#[global] Instance result_fmap : FMap result := fun A B f r =>
  match r with
  | Ok a => Ok (f a)
  | Raise e => Raise e
  end.

(** ** datetime.date *)

Module Date.

Record date := mkdate { year : Z; month : Z; day : Z }.

#[global] Instance date_eq_dec : EqDecision date.
Proof. solve_decision. Defined.

Definition MINYEAR : Z := 1.
Definition MAXYEAR : Z := 9999.
Definition _MAXORDINAL : Z := 3652059.

Definition _DAYS_IN_MONTH : list Z :=
  [-1; 31; 28; 31; 30; 31; 30; 31; 31; 30; 31; 30; 31].
Definition _DAYS_BEFORE_MONTH : list Z :=
  [-1; 0; 31; 59; 90; 120; 151; 181; 212; 243; 273; 304; 334].

Definition index (l : list Z) (i : Z) : Z := nth (Z.to_nat i) l 0.

Definition _is_leap (y : Z) : bool :=
  (y mod 4 =? 0) && (negb (y mod 100 =? 0) || (y mod 400 =? 0)).

Definition _days_before_year (y : Z) : Z :=
  let y := y - 1 in
  y * 365 + y / 4 - y / 100 + y / 400.

Definition _days_in_month (y m : Z) : Z :=
  if (m =? 2) && _is_leap y then 29 else index _DAYS_IN_MONTH m.

Definition _days_before_month (y m : Z) : Z :=
  index _DAYS_BEFORE_MONTH m + (if (2 <? m) && _is_leap y then 1 else 0).

Definition _ymd2ord (y m d : Z) : Z :=
  _days_before_year y + _days_before_month y m + d.

Definition _DI400Y : Z := Eval cbv in _days_before_year 401.
Definition _DI100Y : Z := Eval cbv in _days_before_year 101.
Definition _DI4Y : Z := Eval cbv in _days_before_year 5.

Definition _ord2ymd (n : Z) : date :=
  let n := n - 1 in
  let n400 := n / _DI400Y in
  let n := n mod _DI400Y in
  let y := n400 * 400 + 1 in
  let n100 := n / _DI100Y in
  let n := n mod _DI100Y in
  let n4 := n / _DI4Y in
  let n := n mod _DI4Y in
  let n1 := n / 365 in
  let n := n mod 365 in
  let y := y + (n100 * 100 + n4 * 4 + n1) in
  if (n1 =? 4) || (n100 =? 4) then mkdate (y - 1) 12 31
  else
    let leapyear := (n1 =? 3) && (negb (n4 =? 24) || (n100 =? 3)) in
    let m := Z.shiftr (n + 50) 5 in
    let preceding :=
      index _DAYS_BEFORE_MONTH m + (if (2 <? m) && leapyear then 1 else 0) in
    if n <? preceding then
      let m := m - 1 in
      let preceding :=
        preceding -
        (index _DAYS_IN_MONTH m + (if (m =? 2) && leapyear then 1 else 0)) in
      mkdate y m (n - preceding + 1)
    else mkdate y m (n - preceding + 1).

(** The check of [date.__new__] ([_check_date_fields]). *)
Definition valid (y m d : Z) : bool :=
  (MINYEAR <=? y) && (y <=? MAXYEAR) &&
  (1 <=? m) && (m <=? 12) &&
  (1 <=? d) && (d <=? _days_in_month y m).

Definition date_new (y m d : Z) : result date :=
  if valid y m d then Ok (mkdate y m d) else Raise ValueError.

Definition valid_date (x : date) : Prop := valid (year x) (month x) (day x) = true.

Definition toordinal (x : date) : Z := _ymd2ord (year x) (month x) (day x).

Definition fromordinal (n : Z) : date := _ord2ymd n.

(** [(a - b).days] for two dates. *)
Definition days_between (a b : date) : Z := toordinal a - toordinal b.

(** [x - timedelta(days=n)] ([date.__add__] on the negated delta). *)
Definition sub_days (x : date) (n : Z) : result date :=
  let o := toordinal x - n in
  if (0 <? o) && (o <=? _MAXORDINAL) then Ok (fromordinal o) else Raise OverflowError.

(** Dates compare as the tuples [(year, month, day)]. *)
Definition leb (a b : date) : bool :=
  (year a <? year b) ||
  ((year a =? year b) &&
   ((month a <? month b) || ((month a =? month b) && (day a <=? day b)))).

(** [a >= b] *)
Definition geb (a b : date) : bool := leb b a.

End Date.

Abbreviation date := Date.date.

(** ** Stable sorting: [list.sort] and [sorted]

    Python's sort is stable, with and without [reverse=True]: elements
    whose keys compare equal keep their relative order. [before x y] says
    that [x], met earlier in the input, stays in front of [y]. *)

Section StableSort.
Context {A : Type} (before : A -> A -> bool).

Fixpoint insert_sorted (x : A) (l : list A) : list A :=
  match l with
  | [] => [x]
  | y :: l' => if before x y then x :: l else y :: insert_sorted x l'
  end.

Fixpoint stable_sort (l : list A) : list A :=
  match l with
  | [] => []
  | x :: l' => insert_sorted x (stable_sort l')
  end.
End StableSort.

(** ** re.search(r'\.(\d{4}-\d{2}-\d{2})$', filename) *)

Module Re.

Definition is_digit (c : ascii) : bool :=
  (48 <=? Z.of_nat (nat_of_ascii c)) && (Z.of_nat (nat_of_ascii c) <=? 57).

Definition is_char (c d : ascii) : bool := Ascii.eqb c d.

Definition newline : ascii := ascii_of_nat 10.

(** The pattern up to the anchor, tried at the first character of [s]:
    the captured group and the characters left after it. *)
Definition match_here (s : list ascii) : option (list ascii * list ascii) :=
  match s with
  | c0 :: y1 :: y2 :: y3 :: y4 :: h1 :: m1 :: m2 :: h2 :: d1 :: d2 :: rest =>
      if is_char c0 "." &&
         is_digit y1 && is_digit y2 && is_digit y3 && is_digit y4 &&
         is_char h1 "-" && is_digit m1 && is_digit m2 &&
         is_char h2 "-" && is_digit d1 && is_digit d2
      then Some ([y1; y2; y3; y4; h1; m1; m2; h2; d1; d2], rest)
      else None
  | _ => None
  end.

(** [$] without [re.MULTILINE]: the end of the string, or the position just
    before a newline that is the last character of the string. *)
Definition at_dollar (rest : list ascii) : bool :=
  match rest with
  | [] => true
  | [c] => is_char c newline
  | _ => false
  end.

(** [re.search] scans the start positions from left to right and returns
    group 1 of the first match. *)
Fixpoint search (s : list ascii) : option (list ascii) :=
  match match_here s with
  | Some (g, rest) =>
      if at_dollar rest then Some g
      else match s with [] => None | _ :: s' => search s' end
  | None => match s with [] => None | _ :: s' => search s' end
  end.

End Re.

(** ** datetime.strptime(s, "%Y-%m-%d").date()

    [_strptime] matches [s] against the regular expression of the format,
    [(?P<Y>\d\d\d\d)-(?P<m>1[0-2]|0[1-9]|[1-9])-(?P<d>3[01]|[12]\d|0[1-9]|[1-9]| [1-9])],
    raises [ValueError] when it does not match or when characters are left
    over, and builds the date, which raises [ValueError] for a day the month
    does not have and for the year 0. *)

Module Strptime.

Definition digit_val (c : ascii) : Z := Z.of_nat (nat_of_ascii c) - 48.

Definition num2 (a b : ascii) : Z := 10 * digit_val a + digit_val b.

Definition num4 (a b c d : ascii) : Z :=
  1000 * digit_val a + 100 * digit_val b + 10 * digit_val c + digit_val d.

(** Two digits match [%m] when they spell 01..12 and [%d], up to the end
    of the string, when they spell 01..31. *)
Definition month_re (m : Z) : bool := (1 <=? m) && (m <=? 12).
Definition day_re (d : Z) : bool := (1 <=? d) && (d <=? 31).

(** On the strings [parse_backup_date] passes: four digits, ['-'], two
    digits, ['-'], two digits. *)
Definition strptime (s : list ascii) : result date :=
  match s with
  | [y1; y2; y3; y4; h1; m1; m2; h2; d1; d2] =>
      let y := num4 y1 y2 y3 y4 in
      let m := num2 m1 m2 in
      let d := num2 d1 d2 in
      if Re.is_char h1 "-" && Re.is_char h2 "-" && month_re m && day_re d
      then Date.date_new y m d
      else Raise ValueError
  | _ => Raise ValueError
  end.

End Strptime.

(** ** The backup catalog *)

(** [parse_backup_date]: [Ok None] is Python's [None]. *)
Definition parse_backup_date (filename : string) : result (option date) :=
  match Re.search (list_ascii_of_string filename) with
  | Some g => d ← Strptime.strptime g; Ok (Some d)
  | None => Ok None
  end.

(** [os.path.join(app_dir, f)] for a directory name that is not empty and
    does not end in the separator ([BACKUPS_DIR] is absolute and the app
    name is not empty) and a name [f] of [os.listdir], which holds no
    separator: the two joined by the separator. *)
Definition path_join (app_dir f : string) : string := app_dir +:+ "/" +:+ f.

(** The tuple [(f, date, path)]. *)
Record backup := mkbackup { b_file : string; b_date : date; b_path : string }.

#[global] Instance backup_eq_dec : EqDecision backup.
Proof. solve_decision. Defined.

Definition month_key : Type := Z * Z.

(** Tuples [(year, month)] compare lexicographically. *)
Definition key_leb (a b : month_key) : bool :=
  (a.1 <? b.1) || ((a.1 =? b.1) && (a.2 <=? b.2)).

Section Catalog.
(** [os.path.join(BACKUPS_DIR, app_name)] *)
Variable app_dir : string.

(** The loop of [get_existing_backups] over [os.listdir(app_dir)]. *)
Fixpoint collect (names : list string) (backups : list backup)
    : result (list backup) :=
  match names with
  | [] => Ok backups
  | f :: names' =>
      od ← parse_backup_date f;
      match od with
      | Some d => collect names' (backups ++ [mkbackup f d (path_join app_dir f)])
      | None => collect names' backups
      end
  end.

(** [backups.sort(key=lambda x: x[1], reverse=True)] *)
Definition sort_newest_first (backups : list backup) : list backup :=
  stable_sort (fun x y => Date.geb (b_date x) (b_date y)) backups.

(** [dir] is [None] when [app_dir] does not exist. *)
Definition get_existing_backups (dir : option (list string))
    : result (list backup) :=
  match dir with
  | None => Ok []
  | Some names =>
      backups ← collect names [];
      Ok (sort_newest_first backups)
  end.

(** [should_backup] (the message it prints when it skips is left out). *)
Definition should_backup (dir : option (list string)) (today : date)
    (force : bool) : result bool :=
  if force then Ok true
  else
    backups ← get_existing_backups dir;
    match backups with
    | [] => Ok true
    | newest :: _ =>
        let days_old := Date.days_between today (b_date newest) in
        if days_old <=? 7 then Ok false else Ok true
    end.
End Catalog.

(** ** Rotation *)

(** [month_key = (date.year, date.month)] *)
Definition month_of (b : backup) : month_key :=
  (Date.year (b_date b), Date.month (b_date b)).

(** [monthly[month_key].append((f, date, path))] on a [defaultdict(list)] *)
Definition group_step (monthly : gmap month_key (list backup)) (b : backup)
    : gmap month_key (list backup) :=
  <[month_of b := default [] (monthly !! month_of b) ++ [b]]> monthly.

(** The loop over [backups[4:]] that fills [monthly]. *)
Definition group_by_month (rest : list backup) : gmap month_key (list backup) :=
  fold_left group_step rest ∅.

(** [sorted(monthly.keys(), reverse=True)] *)
Definition sorted_keys (monthly : gmap month_key (list backup)) : list month_key :=
  stable_sort (fun x y => key_leb y x) (map_to_list monthly).*1.

(** [sorted(monthly[month_key], key=lambda x: x[1])] *)
Definition sort_oldest_first (l : list backup) : list backup :=
  stable_sort (fun x y => Date.leb (b_date x) (b_date y)) l.

(** The variables of the monthly loop. [evaluated] is not a variable of the
    program: it records, in order, the month keys whose group the loop body
    looked at, so that statements about the order of processing can be
    made. *)
Record loop_state := mkstate {
  to_keep : gset string;
  months_kept : Z;
  evaluated : list month_key
}.

Fixpoint monthly_loop (monthly : gmap month_key (list backup)) (cutoff : date)
    (keys : list month_key) (st : loop_state) : result loop_state :=
  match keys with
  | [] => Ok st
  | k :: keys' =>
      if 12 <=? months_kept st then Ok st (* break *)
      else
        match sort_oldest_first (default [] (monthly !! k)) with
        | [] => Raise IndexError
        | oldest :: _ =>
            if Date.geb (b_date oldest) cutoff then
              monthly_loop monthly cutoff keys'
                (mkstate (to_keep st ∪ {[b_path oldest]}) (months_kept st + 1)
                         (evaluated st ++ [k]))
            else
              monthly_loop monthly cutoff keys'
                (mkstate (to_keep st) (months_kept st) (evaluated st ++ [k]))
        end
  end.

(** What [rotate_backups] decides: [delete] is [to_delete] (the program
    stores the pair [(f, path)] of each of these backups), [keep] the
    backups of the catalog it leaves in place. *)
Record decision := mkdecision { keep : list backup; delete : list backup }.

(** The state of the monthly loop when it ends, for a catalog of more than
    4 backups. *)
Definition rotate_state (backups : list backup) (today : date)
    : result loop_state :=
  let to_keep0 : gset string := list_to_set (b_path <$> take 4 backups) in
  let monthly := group_by_month (drop 4 backups) in
  cutoff ← Date.sub_days today 365;
  monthly_loop monthly cutoff (sorted_keys monthly) (mkstate to_keep0 0 []).

(** [rotate_backups] from the catalog on, up to the removal of the files. *)
Definition rotate (backups : list backup) (today : date) : result decision :=
  if (length backups <=? 4)%nat then Ok (mkdecision backups [])
  else
    st ← rotate_state backups today;
    Ok (mkdecision
          (filter (fun b => b_path b ∈ to_keep st) backups)
          (filter (fun b => b_path b ∉ to_keep st) backups)).

Section Rotate.
Variable app_dir : string.

(** [os.remove(path)] for every backup of [to_delete], in the runs in which
    every removal goes through ([rotating], below, has the others). *)
Definition remove_all (deleted : list backup) (names : list string)
    : list string :=
  filter (fun f => path_join app_dir f ∉ b_path <$> deleted) names.

(** [rotate_backups] in the runs in which every removal goes through: the
    decision taken and the directory it leaves. *)
Definition rotate_backups (dir : option (list string)) (today : date)
    : result (decision * option (list string)) :=
  backups ← get_existing_backups app_dir dir;
  d ← rotate backups today;
  Ok (d, remove_all (delete d) <$> dir).
End Rotate.

(** * Vocabulary of the statements

    Names for what the program computes on the way, and the catalogs of
    the examples. *)

(** [a] is a later month than [b]. *)
Definition key_gt (a b : month_key) : Prop := key_leb b a = true /\ a <> b.

(** [month_backups[0]], when there is one. *)
Definition oldest_of (monthly : gmap month_key (list backup)) (k : month_key)
    : option backup :=
  head (sort_oldest_first (default [] (monthly !! k))).

(** The test [oldest[1] >= cutoff] on the group of [k]. *)
Definition passes (monthly : gmap month_key (list backup)) (cutoff : date)
    (k : month_key) : bool :=
  match oldest_of monthly k with
  | Some oldest => Date.geb (b_date oldest) cutoff
  | None => false
  end.

(** Of the groups [ks] the loop looked at, the backups it added to
    [to_keep], and how many they are. *)
Definition kept_of (monthly : gmap month_key (list backup)) (cutoff : date)
    (ks : list month_key) : list backup :=
  omap (oldest_of monthly) (filter (fun k => passes monthly cutoff k = true) ks).

Definition kept_among (monthly : gmap month_key (list backup)) (cutoff : date)
    (ks : list month_key) : Z :=
  Z.of_nat (length (filter (fun k => passes monthly cutoff k = true) ks)).

(** The paths in [to_keep] after the loop has looked at the groups [new]. *)
Definition kept_paths (backups : list backup) (cutoff : date)
    (new : list month_key) : gset string :=
  list_to_set (b_path <$> take 4 backups) ∪
  list_to_set (b_path <$> kept_of (group_by_month (drop 4 backups)) cutoff new).

(** The backups beyond the 4 newest that [rotate] keeps. *)
Definition monthly_kept (backups : list backup) (cutoff : date)
    (new : list month_key) : list backup :=
  filter (fun b => b ∈ kept_of (group_by_month (drop 4 backups)) cutoff new)
         (drop 4 backups).

(** The month and the day [_ord2ymd] finds for the day [n] of a year,
    counted from 0. *)
Definition month_day (leapyear : bool) (n : Z) : Z * Z :=
  let m := Z.shiftr (n + 50) 5 in
  let preceding :=
    Date.index Date._DAYS_BEFORE_MONTH m +
    (if (2 <? m) && leapyear then 1 else 0) in
  if n <? preceding then
    let m := m - 1 in
    let preceding :=
      preceding -
      (Date.index Date._DAYS_IN_MONTH m +
       (if (m =? 2) && leapyear then 1 else 0)) in
    (m, n - preceding + 1)
  else (m, n - preceding + 1).

(** [month_day] gives a day of the calendar, the day [n] of the year. *)
Definition month_day_ok (leapyear : bool) (n : Z) : bool :=
  let '(m, d) := month_day leapyear n in
  (1 <=? m) && (m <=? 12) && (1 <=? d) &&
  (d <=? (if (m =? 2) && leapyear then 29 else Date.index Date._DAYS_IN_MONTH m)) &&
  (Date.index Date._DAYS_BEFORE_MONTH m +
   (if (2 <? m) && leapyear then 1 else 0) + d =? n + 1).

(** The backups one name of the directory contributes to the catalog. *)
Definition listed (app_dir f : string) : list backup :=
  match parse_backup_date f with
  | Ok (Some d) => [mkbackup f d (path_join app_dir f)]
  | _ => []
  end.

Definition parses (f : string) : Prop :=
  exists od, parse_backup_date f = Ok od.

(** The claim as the specification words it: the loop looks at every
    month group, whatever the number of months kept. *)
Definition looks_at_all_groups (backups : list backup) (today : date) : Prop :=
  forall st,
    rotate_state backups today = Ok st ->
    evaluated st = sorted_keys (group_by_month (drop 4 backups)).

(** Two different backups of the catalog have the same date, and no backup
    of their month is older. *)
Definition share_oldest_date_in_month (backups : list backup) : Prop :=
  Exists (fun b1 =>
    Exists (fun b2 =>
      b1 <> b2 /\ b_date b1 = b_date b2 /\
      Forall (fun b => month_of b = month_of b1 ->
                       Date.leb (b_date b1) (b_date b) = true) backups)
      backups)
    backups.

(** The gloss of the claim as the specification words it: two listings of
    the same files lead to different decisions only when two files share
    the oldest date of a month, be it among all the backups of the catalog
    or among those the monthly tier groups (the positions from 4 on, in
    either listing). *)
Definition order_matters_only_on_shared_oldest : Prop :=
  forall app_dir names1 names2 today c1 c2 d1 d2,
    names1 ≡ₚ names2 ->
    get_existing_backups app_dir (Some names1) = Ok c1 ->
    get_existing_backups app_dir (Some names2) = Ok c2 ->
    rotate c1 today = Ok d1 ->
    rotate c2 today = Ok d2 ->
    d1 <> d2 ->
    share_oldest_date_in_month c1 \/
    share_oldest_date_in_month (drop 4 c1) \/
    share_oldest_date_in_month (drop 4 c2).

(** The backup of the file [f] of [app_dir], dated [y]-[m]-[d]. *)
Definition backup_of (app_dir f : string) (y m d : Z) : backup :=
  mkbackup f (Date.mkdate y m d) (path_join app_dir f).

(** The catalog of the scenario: seven backups of app [x], newest first. *)
Definition scenario_catalog : list backup :=
  [ backup_of "backups/x" "x.db.2024-03-29" 2024 3 29;
    backup_of "backups/x" "x.db.2024-03-22" 2024 3 22;
    backup_of "backups/x" "x.db.2024-03-15" 2024 3 15;
    backup_of "backups/x" "x.db.2024-03-01" 2024 3 1;
    backup_of "backups/x" "x.db.2024-02-10" 2024 2 10;
    backup_of "backups/x" "x.db.2024-01-20" 2024 1 20;
    backup_of "backups/x" "x.db.2024-01-05" 2024 1 5 ].

Definition scenario_today : date := Date.mkdate 2024 4 1.

(** Thirteen months have a backup that is not older than the cutoff:
    the 4 newest backups are of the last days of December 2023, the others
    of the first day of each month of 2023 and of 2022-12-31. *)
Definition thirteen_months_catalog : list backup :=
  [ backup_of "backups/x" "x.db.2023-12-31" 2023 12 31;
    backup_of "backups/x" "x.db.2023-12-30" 2023 12 30;
    backup_of "backups/x" "x.db.2023-12-29" 2023 12 29;
    backup_of "backups/x" "x.db.2023-12-28" 2023 12 28;
    backup_of "backups/x" "x.db.2023-12-01" 2023 12 1;
    backup_of "backups/x" "x.db.2023-11-01" 2023 11 1;
    backup_of "backups/x" "x.db.2023-10-01" 2023 10 1;
    backup_of "backups/x" "x.db.2023-09-01" 2023 9 1;
    backup_of "backups/x" "x.db.2023-08-01" 2023 8 1;
    backup_of "backups/x" "x.db.2023-07-01" 2023 7 1;
    backup_of "backups/x" "x.db.2023-06-01" 2023 6 1;
    backup_of "backups/x" "x.db.2023-05-01" 2023 5 1;
    backup_of "backups/x" "x.db.2023-04-01" 2023 4 1;
    backup_of "backups/x" "x.db.2023-03-01" 2023 3 1;
    backup_of "backups/x" "x.db.2023-02-01" 2023 2 1;
    backup_of "backups/x" "x.db.2023-01-01" 2023 1 1;
    backup_of "backups/x" "x.db.2022-12-31" 2022 12 31 ].

Definition thirteen_months_today : date := Date.mkdate 2023 12 31.

(** Two files of 2024-03-07 in the two orders a listing can give them. *)
Definition tie_names1 : list string :=
  ["x.db.2024-03-10"; "x.db.2024-03-09"; "x.db.2024-03-08";
   "x.db.2024-03-07"; "y.db.2024-03-07"; "x.db.2024-03-01"]%string.

Definition tie_names2 : list string :=
  ["x.db.2024-03-10"; "x.db.2024-03-09"; "x.db.2024-03-08";
   "y.db.2024-03-07"; "x.db.2024-03-07"; "x.db.2024-03-01"]%string.

Definition tie_catalog (f3 f4 : string) : list backup :=
  [ backup_of "backups/x" "x.db.2024-03-10" 2024 3 10;
    backup_of "backups/x" "x.db.2024-03-09" 2024 3 9;
    backup_of "backups/x" "x.db.2024-03-08" 2024 3 8;
    backup_of "backups/x" f3 2024 3 7;
    backup_of "backups/x" f4 2024 3 7;
    backup_of "backups/x" "x.db.2024-03-01" 2024 3 1 ].

Definition tie_decision (f3 f4 : string) : decision :=
  mkdecision
    [ backup_of "backups/x" "x.db.2024-03-10" 2024 3 10;
      backup_of "backups/x" "x.db.2024-03-09" 2024 3 9;
      backup_of "backups/x" "x.db.2024-03-08" 2024 3 8;
      backup_of "backups/x" f3 2024 3 7;
      backup_of "backups/x" "x.db.2024-03-01" 2024 3 1 ]
    [ backup_of "backups/x" f4 2024 3 7 ].

(** * The rest of the backup script

    [backup_app] (src/backup.py) with what it calls: the name it gives the
    new file, [get_app_config] and [get_app_names] (src/config.py),
    [_ssh_key], [_ssh_base] and [run_ssh_quiet] (src/ssh_utils.py).

    What the program finds outside of the backup directory (the key, the
    answers of [ssh] and [scp]) is an argument [w : world]; [sys.exit] and
    the exceptions are values [Abort x] of the [outcome] monad; the three
    readings of [datetime.now()] are an argument [now : clock]. *)

(** ** Naming a new backup *)

Module Format.

(** The character of the digit [n], for [0 <= n <= 9]. *)
Definition digit (n : Z) : ascii := ascii_of_nat (Z.to_nat (48 + n)).

(** ["%02d" % n] for [0 <= n <= 99] and ["%04d" % n] for [0 <= n <= 9999]. *)
Definition pad2 (n : Z) : list ascii := [digit (n / 10); digit (n mod 10)].

Definition pad4 (n : Z) : list ascii :=
  [digit (n / 1000); digit (n / 100 mod 10); digit (n / 10 mod 10);
   digit (n mod 10)].

(** [date.isoformat()], that is ["%04d-%02d-%02d" % (year, month, day)]. *)
Definition isoformat_chars (x : date) : list ascii :=
  pad4 (Date.year x) ++ ["-"%char] ++ pad2 (Date.month x) ++ ["-"%char] ++
  pad2 (Date.day x).

Definition isoformat (x : date) : string :=
  string_of_list_ascii (isoformat_chars x).

End Format.

(** [datetime.now().strftime("%Y-%m-%d")]. From the year 1000 on, where
    every platform writes the year with its four digits, this is
    [isoformat]. *)
Definition strftime_ymd (today : date) : string := Format.isoformat today.

(** [os.path.basename(p)] of [posixpath]: what follows the last ['/']. *)
Fixpoint basename_chars (p : list ascii) : list ascii :=
  match p with
  | [] => []
  | c :: p' =>
      if existsb (Ascii.eqb "/") p then basename_chars p' else p
  end.

Definition basename (p : string) : string :=
  string_of_list_ascii (basename_chars (list_ascii_of_string p)).

(** [backup_filename = f"{db_filename}.{today}"] of [backup_app]. *)
Definition backup_filename (db_path : string) (today : date) : string :=
  basename db_path +:+ "." +:+ strftime_ymd today.

(** ** str.lower and str.strip *)

Module Str.

Definition code (c : ascii) : Z := Z.of_nat (nat_of_ascii c).

(** [c.isspace()] for a character below 256. *)
Definition isspace (c : ascii) : bool :=
  ((9 <=? code c) && (code c <=? 13)) || ((28 <=? code c) && (code c <=? 32)) ||
  (code c =? 133) || (code c =? 160).

(** [c.lower()] for a character below 256: the letters A-Z and the capital
    letters of Latin-1 (all of 192-222 but the sign 215). *)
Definition lower_char (c : ascii) : ascii :=
  if ((65 <=? code c) && (code c <=? 90)) ||
     ((192 <=? code c) && (code c <=? 214)) ||
     ((216 <=? code c) && (code c <=? 222))
  then ascii_of_nat (Z.to_nat (code c + 32))
  else c.

Definition lower_chars (s : list ascii) : list ascii := map lower_char s.

Fixpoint lstrip_chars (s : list ascii) : list ascii :=
  match s with
  | [] => []
  | c :: s' => if isspace c then lstrip_chars s' else s
  end.

Definition rstrip_chars (s : list ascii) : list ascii :=
  rev (lstrip_chars (rev s)).

Definition strip_chars (s : list ascii) : list ascii :=
  lstrip_chars (rstrip_chars s).

Definition lower (s : string) : string :=
  string_of_list_ascii (lower_chars (list_ascii_of_string s)).

Definition strip (s : string) : string :=
  string_of_list_ascii (strip_chars (list_ascii_of_string s)).

End Str.

(** ** config.py *)

Definition SERVER_USER : string := "ec2-user".
Definition SERVER_IP : string := "100.50.222.238".
Definition SSH_OPTIONS : list string :=
  ["-o"; "StrictHostKeyChecking=no";
   "-o"; "UserKnownHostsFile=/dev/null";
   "-o"; "LogLevel=ERROR";
   "-o"; "ConnectTimeout=10"]%string.

(** An entry of [pre_sync_commands]. *)
Record pre_sync := mkpre_sync {
  ps_cmd : string; ps_cwd_suffix : string; ps_description : string
}.

(** The dictionary of one app; a key the dictionary does not have is
    [None]. *)
Record app_config := mkapp {
  local_path : string;
  remote_path : string;
  service_name : string;
  port : Z;
  url : string;
  stack : string;
  db_remote_path : option string;
  exclude_patterns : list string;
  pre_sync_commands : list pre_sync;
  ensure_dirs : option (list string);
  dep_install : string
}.

Definition python_excludes : list string :=
  ["venv/"; "data/"; ".git/"; "__pycache__/"; "*.pyc";
   "*.db"; "*.db-journal"; "*.sqlite"; "*.sqlite3"; ".DS_Store"]%string.

Section Config.
(** [PROJECTS_DIR], the directory above the one of the scripts. *)
Variable PROJECTS_DIR : string.

(** [APPS], in the order of the source. *)
Definition APPS : list (string * app_config) :=
  [ ("taskschedule",
     mkapp (path_join PROJECTS_DIR "taskschedule")
       "/home/ec2-user/taskschedule" "taskschedule" 5000
       "http://taskschedule.mebbert.com:5000" "python"
       (Some "/home/ec2-user/taskschedule/data/database.db")
       ["venv/"; "data/"; ".git/"; "__pycache__/"; "*.pyc";
        "*.db"; "*.db-journal"; "*.db.bak*"; "*.sqlite"; "*.sqlite3";
        "app.log"; ".DS_Store"]
       [] (Some ["data"]) "python3 -m pip install -r requirements.txt");
    ("sevenhabitslist",
     mkapp (path_join PROJECTS_DIR "sevenhabitslist")
       "/home/ec2-user/sevenhabitslist" "sevenhabitslist" 3002
       "https://sevenhabitslist.mebbert.com" "python"
       (Some "/home/ec2-user/sevenhabitslist/data/sevenhabits.db")
       python_excludes
       [] None "source venv/bin/activate && pip install -r requirements.txt");
    ("recipeshoppinglist",
     mkapp (path_join PROJECTS_DIR "recipeshoppinglist")
       "/home/ec2-user/recipeshoppinglist" "recipeshoppinglist" 3003
       "https://recipeshoppinglist.mebbert.com" "python"
       (Some "/home/ec2-user/recipeshoppinglist/data/recipes.db")
       python_excludes
       [] None "python3 -m pip install -r requirements.txt");
    ("tifootball",
     mkapp (path_join PROJECTS_DIR "tifootball")
       "/home/ec2-user/tifootball" "tifootball" 3001
       "https://tifootball.mebbert.com" "node"
       (Some "/home/ec2-user/tifootball/data/tifootball.db")
       ["node_modules/"; ".git/"; "client/src/";
        "*.db"; "*.db-journal"; "*.sqlite"; "*.sqlite3"; ".DS_Store"]
       [mkpre_sync "npm run build" "client" "Building React frontend"]
       (Some ["data"]) "cd server && npm install");
    ("rjbingo",
     mkapp (path_join PROJECTS_DIR "rjbingo")
       "/home/ec2-user/rjbingo" "rjbingo" 5001
       "https://rjbingo.mebbert.com" "python"
       (Some "/home/ec2-user/rjbingo/data/bingo.db")
       python_excludes
       [] (Some ["data"]) "python3 -m pip install -r requirements.txt")
  ]%string.
End Config.

(** ** Ways out of a function other than [return] *)

(** [Error e] is one of the exceptions of [exn], [OSError] the one a call
    of the operating system raises and [TimeoutExpired] is
    [subprocess.TimeoutExpired]: [except Exception] catches the three.
    [SystemExit code] is [sys.exit(code)], which it does not catch. *)
Inductive abort : Type :=
| Error (e : exn)
| OSError
| TimeoutExpired
| SystemExit (code : Z).

Inductive outcome (A : Type) : Type :=
| Done (a : A)
| Abort (x : abort).
Arguments Done {A} a.
Arguments Abort {A} x.

#[export] Instance outcome_ret : MRet outcome := fun A a => Done a.
#[export] Instance outcome_bind : MBind outcome := fun A B f m =>
  match m with
  | Done a => f a
  | Abort x => Abort x
  end.

(** An exception of the catalog functions, seen by their caller. *)
Definition raised {A} (r : result A) : outcome A :=
  match r with
  | Ok a => Done a
  | Raise e => Abort (Error e)
  end.

(** [d.get(k)] and [list(d.keys())] on a dictionary written as the list of
    its items. *)
Definition dict_get {A} (d : list (string * A)) (k : string) : option A :=
  snd <$> find (fun kv => String.eqb (fst kv) k) d.

Definition dict_keys {A} (d : list (string * A)) : list string := fst <$> d.

Section Lookup.
Variable PROJECTS_DIR : string.

(** [get_app_config(name)]. *)
Definition get_app_config (name : string) : outcome app_config :=
  let name := Str.strip (Str.lower name) in
  match dict_get (APPS PROJECTS_DIR) name with
  | None => Abort (SystemExit 1)
  | Some config => Done config
  end.

(** [get_app_names(arg)]. *)
Definition get_app_names (arg : string) : outcome (list string) :=
  let arg := Str.strip (Str.lower arg) in
  if String.eqb arg "all" then Done (dict_keys (APPS PROJECTS_DIR))
  else match dict_get (APPS PROJECTS_DIR) arg with
       | None => Abort (SystemExit 1)
       | Some _ => Done [arg]
       end.
End Lookup.

(** ** ssh_utils.py: what the backup uses *)

(** A finished process: [stdout], [stderr], [returncode]. *)
Record completed := Completed {
  stdout : string; stderr : string; returncode : Z
}.

(** What the program meets during one run of [backup_app]: the key
    [find_ssh_key()] returns, what [subprocess.run] gives for a command (a
    finished process, or the exception it raises, [TimeoutExpired] when the
    timeout expires), whether the local file exists once [scp] is over, and
    the paths on which [os.remove] goes through (on the others it raises
    [OSError] and the file stays). *)
Record world := mkworld {
  find_ssh_key : option string;
  subprocess_run : list string -> outcome completed;
  scp_creates : bool;
  os_remove : string -> bool
}.

Section Ssh.
Variable w : world.

Definition _ssh_key : outcome string :=
  match find_ssh_key w with
  | None => Abort (SystemExit 1)
  | Some key => if String.eqb key "" then Abort (SystemExit 1) else Done key
  end.

Definition _ssh_base : outcome (list string) :=
  key ← _ssh_key;
  Done (["ssh"; "-i"; key]%string ++ SSH_OPTIONS ++
        [SERVER_USER +:+ "@" +:+ SERVER_IP]).

(** [run_ssh_quiet(remote_cmd)]: the triple [(stdout, stderr, rc)]. Of the
    exceptions, [except subprocess.TimeoutExpired] catches this one only. *)
Definition run_ssh_quiet (remote_cmd : string)
    : outcome (string * string * Z) :=
  base ← _ssh_base;
  match subprocess_run w (base ++ [remote_cmd]) with
  | Done result =>
      Done (Str.strip (stdout result), Str.strip (stderr result),
            returncode result)
  | Abort TimeoutExpired =>
      Done (""%string, "SSH command timed out"%string, 1)
  | Abort x => Abort x
  end.
End Ssh.

(** ** backup.py: [backup_app] *)

(** [s.isdigit()] on characters below 256: the ten digits and the
    superscripts 2, 3 and 1. *)
Definition isdigit_char (c : ascii) : bool :=
  Re.is_digit c || (Str.code c =? 178) || (Str.code c =? 179) ||
  (Str.code c =? 185).

Definition isdigit (s : string) : bool :=
  match list_ascii_of_string s with
  | [] => false
  | cs => forallb isdigit_char cs
  end.

Definition decimal (cs : list ascii) : Z :=
  fold_left (fun n c => 10 * n + Strptime.digit_val c) cs 0.

(** [int(s)] for an [s] that [isdigit] accepts: a superscript is no decimal
    digit, and more than 4300 digits are refused. *)
Definition int (s : string) : result Z :=
  let cs := list_ascii_of_string s in
  if forallb Re.is_digit cs && (length cs <=? 4300)%nat
  then Ok (decimal cs)
  else Raise ValueError.

(** [n / 1024] in the text that is printed: the division of an [int] gives
    the nearest float, and raises [OverflowError] when this is beyond the
    largest float, that is from [2^1034 - 2^980] on. *)
Definition kilobytes (n : Z) : result unit :=
  if 2 ^ 1034 - 2 ^ 980 <=? Z.abs n then Raise OverflowError else Ok tt.

(** The three times [backup_app] reads [datetime.now()]: in
    [should_backup], for the name of the file, in [rotate_backups]. *)
Record clock := mkclock {
  at_gate : date; at_name : date; at_rotate : date
}.

(** A computation on the backup directory of one app. *)
Definition fsio (A : Type) : Type :=
  option (list string) -> option (list string) * outcome A.

#[export] Instance fsio_ret : MRet fsio := fun A a dir => (dir, Done a).
#[export] Instance fsio_bind : MBind fsio := fun A B f m dir =>
  match m dir with
  | (dir', Done a) => f a dir'
  | (dir', Abort x) => (dir', Abort x)
  end.

(** A step that leaves the directory alone. *)
Definition pure {A} (o : outcome A) : fsio A := fun dir => (dir, o).

(** A step that reads the directory. *)
Definition reading {A} (f : option (list string) -> result A) : fsio A :=
  fun dir => (dir, raised (f dir)).

(** [os.makedirs(app_backup_dir, exist_ok=True)]. *)
Definition makedirs : fsio unit :=
  fun dir => (Some (default [] dir), Done tt).

(** [os.path.exists(os.path.join(app_backup_dir, f))]. *)
Definition path_exists (f : string) : fsio bool :=
  fun dir => (dir, Done (bool_decide (f ∈ default [] dir))).

(** [subprocess.run(scp_cmd, ..., timeout=60)] with its effect on the
    directory: the new name comes last in the listing. *)
Definition run_scp (w : world) (scp_cmd : list string) (f : string)
    : fsio completed :=
  fun dir =>
    let dir' := if scp_creates w then Some (default [] dir ++ [f]) else dir in
    (dir', subprocess_run w scp_cmd).

(** [os.remove(path)] for the file of the backup [b]: it raises [OSError],
    and the directory stays as it is, when the file is not there or when
    the removal does not go through. *)
Definition remove_file (w : world) (app_dir : string) (b : backup)
    : fsio unit :=
  fun dir =>
    let names := default [] dir in
    if bool_decide (b_path b ∈ path_join app_dir <$> names) &&
       os_remove w (b_path b)
    then (Some (filter (fun f => path_join app_dir f <> b_path b) names),
          Done tt)
    else (dir, Abort OSError).

(** The loop [for f, path in to_delete: os.remove(path)]. *)
Fixpoint remove_each (w : world) (app_dir : string) (to_delete : list backup)
    : fsio unit :=
  match to_delete with
  | [] => mret tt
  | b :: to_delete' =>
      remove_file w app_dir b ≫= fun _ => remove_each w app_dir to_delete'
  end.

(** [rotate_backups(app_name)] as it runs on the directory: the catalog, the
    decision of [rotate], then the removals one by one, the first that
    fails ending the run. *)
Definition rotating (w : world) (app_dir : string) (today : date)
    : fsio unit :=
  backups ← reading (get_existing_backups app_dir);
  d ← pure (raised (rotate backups today));
  remove_each w app_dir (delete d).

Section BackupApp.
Variables PROJECTS_DIR BACKUPS_DIR : string.
Variable w : world.
Variable now : clock.

Definition remote_spec (db_path : string) : string :=
  SERVER_USER +:+ "@" +:+ SERVER_IP +:+ ":" +:+ db_path.

(** [backup_app(app_name, force)]: [Some true] is [True], [Some false] is
    [False]. *)
Definition backup_app (app_name : string) (force : bool)
    : fsio (option bool) :=
  config ← pure (get_app_config PROJECTS_DIR app_name);
  match db_remote_path config with
  | None => mret None
  | Some db_path =>
    if String.eqb db_path "" then mret None else
    let app_backup_dir := path_join BACKUPS_DIR app_name in
    go ← reading (fun dir =>
            should_backup app_backup_dir dir (at_gate now) force);
    if negb go then mret None else
    out ← pure (run_ssh_quiet w
                  ("test -f " +:+ db_path +:+ " && echo exists"));
    if negb (String.eqb (fst (fst out)) "exists") then mret (Some false) else
    out ← pure (run_ssh_quiet w
                  ("stat -c%s " +:+ db_path +:+ " 2>/dev/null || stat -f%z "
                   +:+ db_path +:+ " 2>/dev/null"));
    remote_size ← pure (if isdigit (fst (fst out))
                        then raised (int (fst (fst out))) else Done 0);
    _ ← pure (raised (kilobytes remote_size));
    _ ← makedirs;
    let backup_filename := backup_filename db_path (at_name now) in
    let local_path := path_join app_backup_dir backup_filename in
    present ← path_exists backup_filename;
    if (present : bool) then mret None else
    key ← pure (_ssh_key w);
    result ← run_scp w
               (["scp"; "-i"; key]%string ++ SSH_OPTIONS ++
                [remote_spec db_path; local_path])
               backup_filename;
    if negb (returncode result =? 0) then mret (Some false) else
    present ← path_exists backup_filename;
    if (present : bool) then
      _ ← rotating w app_backup_dir (at_rotate now);
      mret (Some true)
    else mret (Some false)
  end.
End BackupApp.

(** ** Vocabulary of the further statements *)

(** The ten characters [YYYY-MM-DD] that the regular expression captures. *)
Definition date_shaped (g : list ascii) : Prop :=
  exists y1 y2 y3 y4 m1 m2 d1 d2,
    g = [y1; y2; y3; y4; "-"%char; m1; m2; "-"%char; d1; d2] /\
    Re.is_digit y1 = true /\ Re.is_digit y2 = true /\ Re.is_digit y3 = true /\
    Re.is_digit y4 = true /\ Re.is_digit m1 = true /\ Re.is_digit m2 = true /\
    Re.is_digit d1 = true /\ Re.is_digit d2 = true.

(** The name [f] has a date suffix that [strptime] accepts. *)
Definition dated (f : string) : bool :=
  match parse_backup_date f with
  | Ok (Some _) => true
  | _ => false
  end.

(** [s] is made of whitespace only. *)
Definition blank (s : string) : bool :=
  forallb Str.isspace (list_ascii_of_string s).

(** The backup that the file [f] of the date [x] gives in the catalog. *)
Definition backup_at (app_dir f : string) (x : date) : backup :=
  mkbackup f x (path_join app_dir f).

(** The world of the examples: a key is there, every remote command prints
    [exists], [scp] ends with the status [rc], the local file being there
    afterwards or not, and [os.remove] goes through on the paths that
    [removable] accepts. *)
Definition example_world (rc : Z) (creates : bool)
    (removable : string -> bool) : world :=
  mkworld (Some "deploy.pem"%string)
          (fun _ => Done (Completed "exists" "" rc)) creates removable.

Definition always : string -> bool := fun _ => true.


(** [PROJECTS_DIR] and [BACKUPS_DIR] of the examples. *)
Definition example_projects : string := "/home/me/projects".

Definition example_backups : string :=
  "/home/me/projects/deployment-manager/backups".


(** One day for the three readings of the clock. *)
Definition all_day (x : date) : clock := mkclock x x x.

(** * Facts about the model *)

(** ** Stable sorting *)

Section StableSortFacts.
Context {A : Type} (before : A -> A -> bool).

Let R : relation A := fun x y => before x y = true.

Lemma insert_sorted_Permutation x l : insert_sorted before x l ≡ₚ x :: l.
Proof.
  induction l as [|y l IH]; simpl; [done|].
  destruct (before x y); [done|].
  rewrite IH. apply Permutation_swap.
Qed.

Lemma stable_sort_Permutation l : stable_sort before l ≡ₚ l.
Proof.
  induction l as [|x l IH]; simpl; [done|].
  by rewrite insert_sorted_Permutation, IH.
Qed.

Lemma stable_sort_nil_inv l : stable_sort before l = [] -> l = [].
Proof.
  intros E. apply Permutation_nil_r. rewrite <- E.
  symmetry. apply stable_sort_Permutation.
Qed.

Hypothesis before_total : forall x y, before x y = false -> before y x = true.

Lemma insert_sorted_Sorted x l :
  Sorted R l -> Sorted R (insert_sorted before x l).
Proof.
  induction 1 as [|y l Hl IH Hy]; simpl.
  - by repeat constructor.
  - destruct (before x y) eqn:E.
    + constructor; [by constructor|]. by constructor.
    + constructor; [done|].
      destruct Hy as [|z l Hyz]; simpl.
      * constructor. by apply before_total.
      * destruct (before x z); constructor; [by apply before_total|done].
Qed.

Lemma stable_sort_Sorted l : Sorted R (stable_sort before l).
Proof.
  induction l as [|x l IH]; simpl; [constructor|].
  by apply insert_sorted_Sorted.
Qed.

(** When no two different elements of the input compare equal, the
    result depends on the elements only, not on their order. *)
Lemma stable_sort_unique l1 l2 :
  Transitive R ->
  (forall x y, x ∈ l1 -> y ∈ l1 -> before x y = true -> before y x = true -> x = y) ->
  l1 ≡ₚ l2 ->
  stable_sort before l1 = stable_sort before l2.
Proof.
  intros Htr Hanti Hp.
  apply (Sorted_unique_strong R); try apply stable_sort_Sorted.
  - intros x y Hx Hy. apply Hanti.
    + by rewrite stable_sort_Permutation in Hx.
    + by rewrite stable_sort_Permutation, <- Hp in Hy.
  - by rewrite !stable_sort_Permutation.
Qed.

(** Sorting commutes with the selection of a part of the list. *)
Lemma insert_sorted_filter (P : A -> Prop) `{!forall x, Decision (P x)} x l :
  Transitive R -> Sorted R l -> P x ->
  filter P (insert_sorted before x l) = insert_sorted before x (filter P l).
Proof.
  intros Htr Hl Hx. apply Sorted_StronglySorted in Hl; [|done].
  induction Hl as [|y l Hl IH Hy]; simpl.
  - by rewrite filter_cons_True.
  - destruct (before x y) eqn:E.
    + rewrite filter_cons_True by done.
      destruct (decide (P y)) as [Hpy|Hpy].
      * rewrite filter_cons_True by done. simpl. by rewrite E.
      * rewrite filter_cons_False by done.
        destruct (filter P l) as [|z l'] eqn:Ef; simpl; [done|].
        assert (z ∈ l) as Hz.
        { assert (z ∈ filter P l) as Hz by (rewrite Ef; left).
          by apply list_elem_of_filter in Hz as [_ ?]. }
        rewrite Forall_forall in Hy.
        assert (before x z = true) as ->; [|done].
        apply (Htr x y z); [done|by apply Hy].
    + destruct (decide (P y)) as [Hpy|Hpy].
      * rewrite !filter_cons_True by done. simpl. by rewrite E, IH.
      * rewrite !filter_cons_False by done. apply IH.
Qed.

Lemma stable_sort_filter (P : A -> Prop) `{!forall x, Decision (P x)} l :
  Transitive R ->
  filter P (stable_sort before l) = stable_sort before (filter P l).
Proof.
  intros Htr. induction l as [|x l IH]; simpl; [done|].
  destruct (decide (P x)) as [Hx|Hx].
  - rewrite filter_cons_True by done. simpl.
    rewrite insert_sorted_filter; [by rewrite IH|done|apply stable_sort_Sorted|done].
  - rewrite filter_cons_False by done. rewrite <- IH.
    clear IH. induction (stable_sort before l) as [|y s IHs]; simpl.
    + by rewrite filter_cons_False.
    + destruct (before x y).
      * by rewrite filter_cons_False.
      * destruct (decide (P y)).
        -- rewrite !filter_cons_True by done. by rewrite IHs.
        -- by rewrite !filter_cons_False.
Qed.
End StableSortFacts.

(** ** The order of dates and of month keys *)

Ltac unbool :=
  repeat match goal with
  | H : _ |- _ =>
      first [ rewrite orb_true_iff in H | rewrite andb_true_iff in H
            | rewrite orb_false_iff in H | rewrite andb_false_iff in H
            | rewrite negb_true_iff in H | rewrite negb_false_iff in H
            | rewrite Z.ltb_lt in H | rewrite Z.leb_le in H
            | rewrite Z.eqb_eq in H | rewrite Z.ltb_ge in H
            | rewrite Z.leb_gt in H | rewrite Z.eqb_neq in H ]
  end;
  rewrite ?orb_true_iff, ?andb_true_iff, ?orb_false_iff, ?andb_false_iff,
    ?Z.ltb_lt, ?Z.leb_le, ?Z.eqb_eq, ?Z.ltb_ge, ?Z.leb_gt, ?Z.eqb_neq.

Lemma date_leb_refl a : Date.leb a a = true.
Proof. unfold Date.leb. unbool. lia. Qed.

Lemma date_leb_trans a b c :
  Date.leb a b = true -> Date.leb b c = true -> Date.leb a c = true.
Proof. unfold Date.leb. intros. unbool. lia. Qed.

Lemma date_leb_total a b : Date.leb a b = false -> Date.leb b a = true.
Proof. unfold Date.leb. intros. unbool. lia. Qed.

Lemma date_leb_antisym a b :
  Date.leb a b = true -> Date.leb b a = true -> a = b.
Proof.
  unfold Date.leb. destruct a, b; simpl. intros. unbool.
  f_equal; lia.
Qed.

Lemma key_leb_refl a : key_leb a a = true.
Proof. unfold key_leb. unbool. lia. Qed.

Lemma key_leb_trans a b c :
  key_leb a b = true -> key_leb b c = true -> key_leb a c = true.
Proof. unfold key_leb. intros. unbool. lia. Qed.

Lemma key_leb_total a b : key_leb a b = false -> key_leb b a = true.
Proof. unfold key_leb. intros. unbool. lia. Qed.

Lemma key_leb_antisym a b :
  key_leb a b = true -> key_leb b a = true -> a = b.
Proof.
  unfold key_leb. destruct a, b; simpl. intros. unbool.
  f_equal; lia.
Qed.

(** ** Grouping by month *)

Lemma group_fold_lookup (rest : list backup)
    (m : gmap month_key (list backup)) (k : month_key) :
  default [] (fold_left group_step rest m !! k) =
  default [] (m !! k) ++ filter (fun b => month_of b = k) rest.
Proof.
  revert m. induction rest as [|b rest IH]; intros m; simpl.
  - by rewrite app_nil_r.
  - rewrite IH. unfold group_step.
    destruct (decide (month_of b = k)) as [<-|Hne].
    + rewrite lookup_insert_eq. rewrite filter_cons_True by done.
      simpl. by rewrite <- app_assoc.
    + rewrite lookup_insert_ne by done. by rewrite filter_cons_False.
Qed.

Lemma group_fold_dom (rest : list backup)
    (m : gmap month_key (list backup)) (k : month_key) :
  k ∈ dom (fold_left group_step rest m) <->
  k ∈ dom m \/ k ∈ month_of <$> rest.
Proof.
  revert m. induction rest as [|b rest IH]; intros m; simpl.
  - split; [by left|]. intros [?|Hk]; [done|]. by apply elem_of_nil in Hk.
  - rewrite IH. unfold group_step.
    rewrite dom_insert, elem_of_union, elem_of_singleton, elem_of_cons.
    intuition congruence.
Qed.

Lemma group_by_month_lookup (rest : list backup) (k : month_key) :
  default [] (group_by_month rest !! k) = filter (fun b => month_of b = k) rest.
Proof.
  unfold group_by_month. rewrite group_fold_lookup.
  by rewrite lookup_empty.
Qed.

Lemma group_by_month_dom (rest : list backup) (k : month_key) :
  k ∈ dom (group_by_month rest) <-> k ∈ month_of <$> rest.
Proof.
  unfold group_by_month. rewrite (group_fold_dom rest ∅ k), dom_empty.
  split; [|by right]. intros [Hk|?]; [|done]. by apply elem_of_empty in Hk.
Qed.

Lemma sorted_keys_Permutation (monthly : gmap month_key (list backup)) :
  sorted_keys monthly ≡ₚ (map_to_list monthly).*1.
Proof. apply stable_sort_Permutation. Qed.

Lemma sorted_keys_NoDup (monthly : gmap month_key (list backup)) :
  NoDup (sorted_keys monthly).
Proof. rewrite sorted_keys_Permutation. apply NoDup_fst_map_to_list. Qed.

Lemma sorted_keys_elem_of (monthly : gmap month_key (list backup))
    (k : month_key) :
  k ∈ sorted_keys monthly <-> k ∈ dom monthly.
Proof.
  rewrite sorted_keys_Permutation, elem_of_dom, list_elem_of_fmap.
  split.
  - intros [[k' v] [-> Hkv]]. apply elem_of_map_to_list in Hkv. by exists v.
  - intros [v Hv]. exists (k, v). split; [done|]. by apply elem_of_map_to_list.
Qed.

Lemma sorted_keys_group (rest : list backup) (k : month_key) :
  k ∈ sorted_keys (group_by_month rest) <-> k ∈ month_of <$> rest.
Proof. by rewrite sorted_keys_elem_of, group_by_month_dom. Qed.

Lemma sorted_keys_descending (monthly : gmap month_key (list backup)) :
  StronglySorted key_gt (sorted_keys monthly).
Proof.
  pose proof (sorted_keys_NoDup monthly) as Hnd.
  assert (StronglySorted (fun a b => key_leb b a = true) (sorted_keys monthly))
    as Hs.
  { apply Sorted_StronglySorted.
    - intros a b c ??. by apply (key_leb_trans c b a).
    - apply (stable_sort_Sorted (fun x y => key_leb y x)).
      intros x y. apply key_leb_total. }
  induction Hs as [|k l Hs IH Hk]; [constructor|].
  apply NoDup_cons in Hnd as [Hnin Hnd].
  constructor; [by apply IH|].
  rewrite Forall_forall in *. intros k' Hk'. split; [by apply Hk|].
  intros ->. done.
Qed.

(** ** The monthly loop *)

Lemma Ok_state_eq (S S' : gset string) n n' (ev ev' : list month_key) :
  S = S' -> n = n' -> ev = ev' ->
  Ok (mkstate S n ev) = Ok (mkstate S' n' ev').
Proof. by intros -> -> ->. Qed.

Lemma monthly_loop_run monthly cutoff keys st :
  (forall k, k ∈ keys -> default [] (monthly !! k) <> []) ->
  exists new skipped,
    keys = new ++ skipped /\
    (skipped <> [] -> 12 <= months_kept st + kept_among monthly cutoff new) /\
    (months_kept st <= 12 -> months_kept st + kept_among monthly cutoff new <= 12) /\
    monthly_loop monthly cutoff keys st =
      Ok (mkstate (to_keep st ∪ list_to_set (b_path <$> kept_of monthly cutoff new))
                  (months_kept st + kept_among monthly cutoff new)
                  (evaluated st ++ new)).
Proof.
  revert st. induction keys as [|k keys IH]; intros [S n ev] Hne; simpl.
  - exists [], []. unfold kept_among, kept_of; simpl.
    rewrite app_nil_r, Z.add_0_r, (right_id_L ∅ (∪)). repeat split; (done || lia).
  - destruct (12 <=? n) eqn:Hcap.
    { exists [], (k :: keys). unfold kept_among, kept_of; simpl.
      rewrite app_nil_r, Z.add_0_r, (right_id_L ∅ (∪)).
      apply Z.leb_le in Hcap. repeat split; (done || lia). }
    apply Z.leb_gt in Hcap.
    assert (default [] (monthly !! k) <> []) as Hk by (apply Hne; left).
    destruct (sort_oldest_first (default [] (monthly !! k))) as [|oldest tl] eqn:Hs.
    { by apply stable_sort_nil_inv in Hs. }
    assert (oldest_of monthly k = Some oldest) as Hold
      by (unfold oldest_of; by rewrite Hs).
    assert (forall k', k' ∈ keys -> default [] (monthly !! k') <> []) as Hne'
      by (intros; apply Hne; by right).
    destruct (Date.geb (b_date oldest) cutoff) eqn:Hge.
    + destruct (IH (mkstate (S ∪ {[b_path oldest]}) (n + 1) (ev ++ [k])) Hne')
        as (new & skipped & -> & Hskip & Hle & ->); simpl in *.
      assert (passes monthly cutoff k = true) as Hp
        by (unfold passes; by rewrite Hold).
      exists (k :: new), skipped. unfold kept_among, kept_of in *.
      rewrite filter_cons_True by done. simpl. rewrite Hold. simpl.
      split; [done|]. split; [intros Hsk; specialize (Hskip Hsk); lia|].
      split; [lia|].
      apply Ok_state_eq; [|lia|by rewrite <- app_assoc].
      by rewrite (assoc_L (∪)).
    + destruct (IH (mkstate S n (ev ++ [k])) Hne')
        as (new & skipped & -> & Hskip & Hle & ->); simpl in *.
      assert (passes monthly cutoff k <> true) as Hp
        by (unfold passes; rewrite Hold; congruence).
      exists (k :: new), skipped. unfold kept_among, kept_of in *.
      rewrite filter_cons_False by done.
      split; [done|]. split; [done|]. split; [done|].
      apply Ok_state_eq; [done|done|by rewrite <- app_assoc].
Qed.

Lemma oldest_of_group (rest : list backup) (k : month_key) (b : backup) :
  oldest_of (group_by_month rest) k = Some b -> b ∈ rest /\ month_of b = k.
Proof.
  unfold oldest_of, sort_oldest_first. intros Hh.
  apply head_Some_elem_of in Hh.
  rewrite stable_sort_Permutation, group_by_month_lookup in Hh.
  by apply list_elem_of_filter in Hh as [? ?].
Qed.

Lemma group_nonempty (rest : list backup) (k : month_key) :
  k ∈ sorted_keys (group_by_month rest) ->
  default [] (group_by_month rest !! k) <> [].
Proof.
  rewrite sorted_keys_group, group_by_month_lookup.
  intros (b & -> & Hb)%list_elem_of_fmap Hnil.
  assert (b ∈ filter (fun b' => month_of b' = month_of b) rest) as Hin
    by (by apply list_elem_of_filter).
  rewrite Hnil in Hin. by apply not_elem_of_nil in Hin.
Qed.

Lemma kept_of_elem_of (rest : list backup) cutoff ks (b : backup) :
  b ∈ kept_of (group_by_month rest) cutoff ks ->
  b ∈ rest /\ month_of b ∈ ks /\ Date.geb (b_date b) cutoff = true.
Proof.
  unfold kept_of. rewrite list_elem_of_omap.
  intros (k & Hk & Hold). apply list_elem_of_filter in Hk as [Hp Hk].
  unfold passes in Hp. rewrite Hold in Hp.
  apply oldest_of_group in Hold as [? <-]. done.
Qed.

Lemma omap_oldest_months (rest : list backup) cutoff (l : list month_key) :
  Forall (fun k => passes (group_by_month rest) cutoff k = true) l ->
  month_of <$> omap (oldest_of (group_by_month rest)) l = l.
Proof.
  induction 1 as [|k l Hp Hl IH]; [done|].
  unfold passes in Hp.
  destruct (oldest_of (group_by_month rest) k) as [b|] eqn:Hold; [|done].
  change (omap (oldest_of (group_by_month rest)) (k :: l))
    with (match oldest_of (group_by_month rest) k with
          | Some y => y :: omap (oldest_of (group_by_month rest)) l
          | None => omap (oldest_of (group_by_month rest)) l
          end).
  rewrite Hold, fmap_cons, IH. f_equal.
  by apply oldest_of_group in Hold as [_ ?].
Qed.

Lemma kept_of_months (rest : list backup) cutoff ks :
  month_of <$> kept_of (group_by_month rest) cutoff ks =
  filter (fun k => passes (group_by_month rest) cutoff k = true) ks.
Proof.
  unfold kept_of. apply (omap_oldest_months rest cutoff).
  apply Forall_forall. intros k Hk. by apply list_elem_of_filter in Hk as [? _].
Qed.

Lemma kept_of_length (rest : list backup) cutoff ks :
  Z.of_nat (length (kept_of (group_by_month rest) cutoff ks)) =
  kept_among (group_by_month rest) cutoff ks.
Proof.
  unfold kept_among. rewrite <- kept_of_months. by rewrite length_fmap.
Qed.

(** The run of the whole loop of [rotate_backups]. *)
Lemma rotate_state_run (backups : list backup) (today cutoff : date) :
  Date.sub_days today 365 = Ok cutoff ->
  let monthly := group_by_month (drop 4 backups) in
  exists new skipped,
    sorted_keys monthly = new ++ skipped /\
    (skipped <> [] -> kept_among monthly cutoff new = 12) /\
    kept_among monthly cutoff new <= 12 /\
    rotate_state backups today =
      Ok (mkstate (list_to_set (b_path <$> take 4 backups) ∪
                   list_to_set (b_path <$> kept_of monthly cutoff new))
                  (kept_among monthly cutoff new) new).
Proof.
  intros Hcut monthly. unfold rotate_state. rewrite Hcut. simpl.
  fold monthly.
  destruct (monthly_loop_run monthly cutoff (sorted_keys monthly)
              (mkstate (list_to_set (b_path <$> take 4 backups)) 0 []))
    as (new & skipped & Hk & Hskip & Hle & Hrun).
  { intros k. apply group_nonempty. }
  simpl in *. exists new, skipped. rewrite Hrun.
  split; [done|]. split; [intros Hsk; specialize (Hskip Hsk); lia|].
  split; [lia|]. by apply Ok_state_eq.
Qed.

(** Every group the loop looks at, it looks at while fewer than 12 months
    have been kept. *)
Lemma monthly_loop_prefix monthly cutoff keys st st' :
  monthly_loop monthly cutoff keys st = Ok st' ->
  exists new,
    evaluated st' = evaluated st ++ new /\
    forall before k after,
      new = before ++ k :: after ->
      months_kept st + kept_among monthly cutoff before < 12.
Proof.
  revert st. induction keys as [|k keys IH]; intros [S n ev]; simpl.
  - intros [= <-]. exists []. simpl. rewrite app_nil_r. split; [done|].
    intros before k after H. by destruct before.
  - destruct (12 <=? n) eqn:Hcap.
    { intros [= <-]. exists []. simpl. rewrite app_nil_r. split; [done|].
      intros before k' after H. by destruct before. }
    apply Z.leb_gt in Hcap.
    destruct (sort_oldest_first (default [] (monthly !! k)))
      as [|oldest tl] eqn:Hs; [done|].
    assert (oldest_of monthly k = Some oldest) as Hold
      by (unfold oldest_of; by rewrite Hs).
    destruct (Date.geb (b_date oldest) cutoff) eqn:Hge; intros Hrun;
      destruct (IH _ Hrun) as (new & Hev & Hbefore); simpl in *;
      exists (k :: new); (split; [by rewrite Hev, <- app_assoc|]);
      intros before k' after Hsplit;
      (destruct before as [|k0 before];
       [unfold kept_among; simpl; lia|]);
      simpl in Hsplit; injection Hsplit as <- Hsplit;
      specialize (Hbefore before k' after Hsplit);
      unfold kept_among in *.
    + assert (passes monthly cutoff k = true) as Hp
        by (unfold passes; by rewrite Hold).
      rewrite filter_cons_True by done. simpl length. lia.
    + assert (passes monthly cutoff k <> true) as Hp
        by (unfold passes; rewrite Hold; congruence).
      by rewrite filter_cons_False by done.
Qed.

(** ** The calendar *)

Lemma month_cases m :
  1 <= m <= 12 ->
  m = 1 \/ m = 2 \/ m = 3 \/ m = 4 \/ m = 5 \/ m = 6 \/ m = 7 \/
  m = 8 \/ m = 9 \/ m = 10 \/ m = 11 \/ m = 12.
Proof. lia. Qed.

Ltac month_case m H :=
  let Hc := fresh in
  pose proof (month_cases m H) as Hc;
  repeat (destruct Hc as [->|Hc]); [..|subst m].

Lemma days_before_year_succ y :
  Date._days_before_year (y + 1) =
  Date._days_before_year y + 365 + (if Date._is_leap y then 1 else 0).
Proof.
  unfold Date._days_before_year, Date._is_leap.
  destruct ((y mod 4 =? 0) && (negb (y mod 100 =? 0) || (y mod 400 =? 0))) eqn:E;
    unbool; Z.to_euclidean_division_equations; lia.
Qed.

Lemma days_before_year_mono y y' :
  y <= y' -> Date._days_before_year y <= Date._days_before_year y'.
Proof.
  intros Hle. pattern y'. apply Z.le_ind with (n := y); [|lia| |done].
  - intros a b ->. done.
  - intros m Hm IH. rewrite <- Z.add_1_r, days_before_year_succ.
    destruct (Date._is_leap m); lia.
Qed.

Lemma days_before_month_step y m m' :
  1 <= m -> m < m' -> m' <= 12 ->
  Date._days_before_month y m + Date._days_in_month y m <=
  Date._days_before_month y m'.
Proof.
  intros H1 H2 H3.
  assert (1 <= m <= 12) as Hm by lia.
  assert (1 <= m' <= 12) as Hm' by lia.
  month_case m Hm; month_case m' Hm'; try lia;
  unfold Date._days_before_month, Date._days_in_month;
  destruct (Date._is_leap y); vm_compute; congruence.
Qed.

Lemma year_length y m :
  1 <= m <= 12 ->
  0 <= Date._days_before_month y m /\
  Date._days_before_month y m + Date._days_in_month y m <=
  365 + (if Date._is_leap y then 1 else 0).
Proof.
  intros Hm. month_case m Hm;
  unfold Date._days_before_month, Date._days_in_month;
  destruct (Date._is_leap y); vm_compute; split; congruence.
Qed.

Lemma valid_date_fields (x : date) :
  Date.valid_date x ->
  1 <= Date.year x <= 9999 /\ 1 <= Date.month x <= 12 /\
  1 <= Date.day x <= Date._days_in_month (Date.year x) (Date.month x).
Proof.
  unfold Date.valid_date, Date.valid, Date.MINYEAR, Date.MAXYEAR.
  intros H. unbool. lia.
Qed.

(** On calendar dates the order of the tuples is the order of the
    ordinals. *)
Lemma toordinal_mono (a b : date) :
  Date.valid_date a -> Date.valid_date b ->
  Date.leb a b = true <-> Date.toordinal a <= Date.toordinal b.
Proof.
  intros (Hya & Hma & Hda)%valid_date_fields (Hyb & Hmb & Hdb)%valid_date_fields.
  destruct a as [ya ma da], b as [yb mb db]. simpl in *.
  unfold Date.leb, Date.toordinal, Date._ymd2ord. simpl.
  pose proof (year_length ya ma Hma) as [Ha0 Ha1].
  pose proof (year_length yb mb Hmb) as [Hb0 Hb1].
  destruct (Z.lt_trichotomy ya yb) as [Hy|[->|Hy]].
  - pose proof (days_before_year_succ ya) as Hs.
    pose proof (days_before_year_mono (ya + 1) yb ltac:(lia)) as Hmono.
    split; intros _; [lia|]. unbool. lia.
  - destruct (Z.lt_trichotomy ma mb) as [Hm|[->|Hm]].
    + pose proof (days_before_month_step yb ma mb ltac:(lia) Hm ltac:(lia)) as Hst.
      split; intros _; [lia|]. unbool. lia.
    + split; intros Hab; unbool; lia.
    + pose proof (days_before_month_step yb mb ma ltac:(lia) Hm ltac:(lia)) as Hst.
      split; intros Hab; unbool; lia.
  - pose proof (days_before_year_succ yb) as Hs.
    pose proof (days_before_year_mono (yb + 1) ya ltac:(lia)) as Hmono.
    split; intros Hab; unbool; lia.
Qed.

Lemma month_day_ok_leap :
  forallb (fun i => month_day_ok true (Z.of_nat i)) (seq 0 366) = true.
Proof. vm_compute. reflexivity. Qed.

Lemma month_day_ok_common :
  forallb (fun i => month_day_ok false (Z.of_nat i)) (seq 0 365) = true.
Proof. vm_compute. reflexivity. Qed.

Lemma month_day_ok_all (leapyear : bool) (n : Z) :
  0 <= n < 365 + (if leapyear then 1 else 0) ->
  month_day_ok leapyear n = true.
Proof.
  intros Hn. rewrite <- (Z2Nat.id n) by lia.
  destruct leapyear.
  - apply (proj1 (forallb_forall _ _) month_day_ok_leap), in_seq. lia.
  - apply (proj1 (forallb_forall _ _) month_day_ok_common), in_seq. lia.
Qed.

Lemma ord2ymd_unfold (n : Z) :
  Date._ord2ymd n =
  let n0 := n - 1 in
  let n400 := n0 / 146097 in
  let r := n0 mod 146097 in
  let n100 := r / 36524 in
  let r2 := r mod 36524 in
  let n4 := r2 / 1461 in
  let r3 := r2 mod 1461 in
  let n1 := r3 / 365 in
  let r4 := r3 mod 365 in
  let y := n400 * 400 + 1 + (n100 * 100 + n4 * 4 + n1) in
  if (n1 =? 4) || (n100 =? 4) then Date.mkdate (y - 1) 12 31
  else
    let leapyear := (n1 =? 3) && (negb (n4 =? 24) || (n100 =? 3)) in
    Date.mkdate y (month_day leapyear r4).1 (month_day leapyear r4).2.
Proof.
  unfold Date._ord2ymd, month_day, Date._DI400Y, Date._DI100Y, Date._DI4Y.
  cbv zeta.
  destruct ((_ =? 4) || (_ =? 4)); [done|].
  by destruct (_ <? _).
Qed.

Lemma ord2ymd_correct (n : Z) :
  1 <= n <= Date._MAXORDINAL ->
  Date.valid_date (Date.fromordinal n) /\
  Date.toordinal (Date.fromordinal n) = n.
Proof.
  unfold Date._MAXORDINAL, Date.fromordinal. intros Hn.
  rewrite ord2ymd_unfold. cbv zeta.
  pose proof (Z.div_mod (n - 1) 146097 ltac:(lia)) as E400.
  pose proof (Z.mod_pos_bound (n - 1) 146097 ltac:(lia)) as B400.
  set (n400 := (n - 1) / 146097) in *. set (r := (n - 1) mod 146097) in *.
  pose proof (Z.div_mod r 36524 ltac:(lia)) as E100.
  pose proof (Z.mod_pos_bound r 36524 ltac:(lia)) as B100.
  set (n100 := r / 36524) in *. set (r2 := r mod 36524) in *.
  pose proof (Z.div_mod r2 1461 ltac:(lia)) as E4.
  pose proof (Z.mod_pos_bound r2 1461 ltac:(lia)) as B4.
  set (n4 := r2 / 1461) in *. set (r3 := r2 mod 1461) in *.
  pose proof (Z.div_mod r3 365 ltac:(lia)) as E1.
  pose proof (Z.mod_pos_bound r3 365 ltac:(lia)) as B1.
  set (n1 := r3 / 365) in *. set (r4 := r3 mod 365) in *.
  clearbody n400 r n100 r2 n4 r3 n1 r4.
  assert (0 <= n400 <= 24 /\ 0 <= n100 <= 4 /\ 0 <= n4 <= 24 /\ 0 <= n1 <= 4)
    as (H400 & H100 & H4 & H1) by lia.
  destruct ((n1 =? 4) || (n100 =? 4)) eqn:Ex.
  - (* the last day of a leap year *)
    set (Y := n400 * 400 + 1 + (n100 * 100 + n4 * 4 + n1) - 1).
    assert (Date._is_leap Y = true) as Hleap.
    { unfold Date._is_leap, Y. unbool.
      Z.to_euclidean_division_equations. lia. }
    assert (Date._days_before_year Y + 366 = n) as Hd.
    { unfold Date._days_before_year, Y. unbool.
      Z.to_euclidean_division_equations. lia. }
    assert (1 <= Y <= 9999) as HY by (unfold Y; unbool; lia).
    split.
    + unfold Date.valid_date, Date.valid, Date._days_in_month,
        Date.MINYEAR, Date.MAXYEAR. simpl.
      unbool. repeat split; try lia. vm_compute. congruence.
    + unfold Date.toordinal, Date._ymd2ord, Date._days_before_month. simpl.
      rewrite Hleap. change (Date.index Date._DAYS_BEFORE_MONTH 12) with 334.
      simpl. lia.
  - set (y := n400 * 400 + 1 + (n100 * 100 + n4 * 4 + n1)).
    set (leapyear := (n1 =? 3) && (negb (n4 =? 24) || (n100 =? 3))).
    unbool.
    assert (Date._is_leap y = leapyear) as Hleap.
    { unfold Date._is_leap, y, leapyear.
      destruct ((n1 =? 3) && (negb (n4 =? 24) || (n100 =? 3))) eqn:El;
        unbool; Z.to_euclidean_division_equations; lia. }
    assert (Date._days_before_year y + r4 + 1 = n) as Hd.
    { unfold Date._days_before_year, y.
      Z.to_euclidean_division_equations. lia. }
    assert (1 <= y <= 9999) as HY by (unfold y; lia).
    pose proof (month_day_ok_all leapyear r4 ltac:(destruct leapyear; lia)) as Hmd.
    unfold month_day_ok in Hmd.
    destruct (month_day leapyear r4) as [m d]. simpl. unbool.
    destruct Hmd as [[[[Hm1 Hm2] Hd1] Hd2] Hsum].
    split.
    + unfold Date.valid_date, Date.valid, Date._days_in_month,
        Date.MINYEAR, Date.MAXYEAR. simpl. rewrite Hleap.
      unbool. repeat split; lia.
    + unfold Date.toordinal, Date._ymd2ord, Date._days_before_month. simpl.
      rewrite Hleap. lia.
Qed.

(** ** The cutoff *)

Lemma toordinal_bounds (x : date) :
  Date.valid_date x ->
  Date._days_before_year (Date.year x) < Date.toordinal x <=
  Date._days_before_year (Date.year x) + 366.
Proof.
  intros (_ & Hm & Hd)%valid_date_fields.
  pose proof (year_length (Date.year x) (Date.month x) Hm) as [H0 H1].
  unfold Date.toordinal, Date._ymd2ord.
  destruct (Date._is_leap (Date.year x)); lia.
Qed.

Lemma days_before_year_bounds y :
  2 <= y <= 9999 -> 365 <= Date._days_before_year y <= 3651793.
Proof.
  intros Hy. unfold Date._days_before_year.
  Z.to_euclidean_division_equations. lia.
Qed.

(** The subtraction of 365 days succeeds on every day from the year 2 on. *)
Lemma sub_days_365_ok (today : date) :
  Date.valid_date today -> 2 <= Date.year today ->
  exists cutoff, Date.sub_days today 365 = Ok cutoff.
Proof.
  intros Hv Hy. pose proof (toordinal_bounds today Hv) as Ho.
  assert (Date.year today <= 9999) as Hmax.
  { unfold Date.valid_date, Date.valid, Date.MAXYEAR in Hv. unbool. lia. }
  pose proof (days_before_year_bounds (Date.year today) ltac:(lia)) as Hb.
  unfold Date.sub_days.
  destruct ((0 <? Date.toordinal today - 365) &&
            (Date.toordinal today - 365 <=? Date._MAXORDINAL)) eqn:E.
  - eauto.
  - unfold Date._MAXORDINAL in E. unbool. lia.
Qed.

(** [x - timedelta(days=n)] is the calendar date [n] days before [x]. *)
Lemma sub_days_spec (x cutoff : date) (n : Z) :
  Date.sub_days x n = Ok cutoff ->
  Date.valid_date cutoff /\ Date.toordinal cutoff = Date.toordinal x - n.
Proof.
  unfold Date.sub_days.
  destruct ((0 <? Date.toordinal x - n) &&
            (Date.toordinal x - n <=? Date._MAXORDINAL)) eqn:E; [|done].
  intros [= <-]. unbool. apply ord2ymd_correct. lia.
Qed.

(** The test against the cutoff is a test on the age in days. *)
Lemma cutoff_age (today cutoff x : date) :
  Date.sub_days today 365 = Ok cutoff ->
  Date.valid_date x ->
  Date.geb x cutoff = true <-> Date.days_between today x <= 365.
Proof.
  intros [Hv Ho]%sub_days_spec Hx. unfold Date.geb, Date.days_between.
  rewrite toordinal_mono by done. lia.
Qed.

(** ** The shape of the decision *)

Lemma filter_all {A} (P : A -> Prop) `{!forall x, Decision (P x)} (l : list A) :
  Forall P l -> filter P l = l.
Proof.
  induction 1 as [|x l Hx Hl IH]; [done|].
  by rewrite filter_cons_True, IH.
Qed.

Lemma filter_none {A} (P : A -> Prop) `{!forall x, Decision (P x)} (l : list A) :
  Forall (fun x => ~ P x) l -> filter P l = [].
Proof.
  induction 1 as [|x l Hx Hl IH]; [done|].
  by rewrite filter_cons_False, IH.
Qed.

Lemma filter_ext_in {A} (P Q : A -> Prop) `{!forall x, Decision (P x)}
    `{!forall x, Decision (Q x)} (l : list A) :
  (forall x, x ∈ l -> P x <-> Q x) -> filter P l = filter Q l.
Proof.
  induction l as [|x l IH]; intros Hpq; [done|].
  assert (filter P l = filter Q l) as E
    by (apply IH; intros; apply Hpq; by right).
  destruct (decide (P x)) as [Hp|Hp].
  - rewrite !filter_cons_True; [by rewrite E| |done]. apply Hpq; [left|done].
  - rewrite !filter_cons_False; [done| |done].
    intros Hq. apply Hp, Hpq; [left|done].
Qed.

Lemma NoDup_fmap_inj {A B} (f : A -> B) (l : list A) (x y : A) :
  NoDup (f <$> l) -> x ∈ l -> y ∈ l -> f x = f y -> x = y.
Proof.
  induction l as [|z l IH]; intros Hnd Hx Hy Hf; [by apply elem_of_nil in Hx|].
  rewrite fmap_cons in Hnd. apply NoDup_cons in Hnd as [Hz Hnd].
  apply elem_of_cons in Hx as [->|Hx]; apply elem_of_cons in Hy as [->|Hy].
  - done.
  - exfalso. apply Hz. rewrite Hf. by apply list_elem_of_fmap_2.
  - exfalso. apply Hz. rewrite <- Hf. by apply list_elem_of_fmap_2.
  - by apply IH.
Qed.

Lemma rotate_small (backups : list backup) (today : date) :
  (length backups <= 4)%nat ->
  rotate backups today = Ok (mkdecision backups []).
Proof.
  intros Hl. unfold rotate.
  by destruct (Nat.leb_spec (length backups) 4); [|lia].
Qed.

Lemma rotate_large (backups : list backup) (today : date) (d : decision) :
  (4 < length backups)%nat ->
  rotate backups today = Ok d ->
  let monthly := group_by_month (drop 4 backups) in
  exists cutoff new skipped,
    Date.sub_days today 365 = Ok cutoff /\
    sorted_keys monthly = new ++ skipped /\
    (skipped <> [] -> kept_among monthly cutoff new = 12) /\
    kept_among monthly cutoff new <= 12 /\
    rotate_state backups today =
      Ok (mkstate (kept_paths backups cutoff new)
                  (kept_among monthly cutoff new) new) /\
    d = mkdecision
          (filter (fun b => b_path b ∈ kept_paths backups cutoff new) backups)
          (filter (fun b => b_path b ∉ kept_paths backups cutoff new) backups).
Proof.
  intros Hl Hrot monthly. unfold rotate in Hrot.
  destruct (Nat.leb_spec (length backups) 4); [lia|].
  destruct (Date.sub_days today 365) as [cutoff|e] eqn:Hcut.
  - destruct (rotate_state_run backups today cutoff Hcut)
      as (new & skipped & Hk & Hskip & Hle & Hrun).
    rewrite Hrun in Hrot. simpl in Hrot. inv Hrot.
    exists cutoff, new, skipped. by repeat split.
  - unfold rotate_state in Hrot. rewrite Hcut in Hrot. done.
Qed.

Lemma rotate_large_ok (backups : list backup) (today cutoff : date) :
  (4 < length backups)%nat ->
  Date.sub_days today 365 = Ok cutoff ->
  exists d, rotate backups today = Ok d.
Proof.
  intros Hl Hcut. unfold rotate.
  destruct (Nat.leb_spec (length backups) 4); [lia|].
  destruct (rotate_state_run backups today cutoff Hcut)
    as (new & skipped & _ & _ & _ & ->).
  simpl. eauto.
Qed.

Lemma top_in_kept_paths (backups : list backup) cutoff new (b : backup) :
  b ∈ take 4 backups -> b_path b ∈ kept_paths backups cutoff new.
Proof.
  intros Hb. unfold kept_paths. apply elem_of_union_l, elem_of_list_to_set.
  by apply list_elem_of_fmap_2.
Qed.

(** With pairwise different paths, the backups kept are the 4 newest and,
    of the others, those the loop chose. *)
Lemma kept_paths_rest (backups : list backup) cutoff new (b : backup) :
  NoDup (b_path <$> backups) ->
  b ∈ drop 4 backups ->
  b_path b ∈ kept_paths backups cutoff new <->
  b ∈ kept_of (group_by_month (drop 4 backups)) cutoff new.
Proof.
  intros Hnd Hb.
  rewrite <- (take_drop 4 backups), fmap_app in Hnd.
  apply NoDup_app in Hnd as (_ & Hdisj & Hrest).
  unfold kept_paths. rewrite elem_of_union, !elem_of_list_to_set. split.
  - intros [Htop|Hk].
    + exfalso. apply (Hdisj _ Htop). by apply list_elem_of_fmap_2.
    + apply list_elem_of_fmap in Hk as (b' & Heq & Hb').
      assert (b' ∈ drop 4 backups) as Hb'r
        by (pose proof (kept_of_elem_of _ _ _ _ Hb') as [? _]; done).
      assert (b = b') as ->; [|done].
      by apply (NoDup_fmap_inj b_path (drop 4 backups)).
  - intros Hk. right. by apply list_elem_of_fmap_2.
Qed.

Lemma keep_shape (backups : list backup) cutoff new :
  NoDup (b_path <$> backups) ->
  filter (fun b => b_path b ∈ kept_paths backups cutoff new) backups =
  take 4 backups ++
  filter (fun b => b ∈ kept_of (group_by_month (drop 4 backups)) cutoff new)
         (drop 4 backups).
Proof.
  intros Hnd. rewrite <- (take_drop 4 backups) at 1. rewrite filter_app.
  f_equal.
  - apply filter_all, Forall_forall. intros b. apply top_in_kept_paths.
  - apply filter_ext_in. intros b Hb. by apply kept_paths_rest.
Qed.

Lemma monthly_kept_facts (backups : list backup) cutoff new skipped :
  NoDup (b_path <$> backups) ->
  sorted_keys (group_by_month (drop 4 backups)) = new ++ skipped ->
  kept_among (group_by_month (drop 4 backups)) cutoff new <= 12 ->
  let R := monthly_kept backups cutoff new in
  (length R <= 12)%nat /\
  Forall (fun b => Date.geb (b_date b) cutoff = true) R /\
  NoDup (month_of <$> R) /\
  NoDup (b_path <$> R).
Proof.
  intros Hnd Hkeys Hle R.
  set (monthly := group_by_month (drop 4 backups)) in *.
  set (P := kept_of monthly cutoff new) in *.
  assert (NoDup (b_path <$> drop 4 backups)) as Hndrest.
  { rewrite <- (take_drop 4 backups), fmap_app in Hnd.
    by apply NoDup_app in Hnd as (_ & _ & ?). }
  assert (NoDup (b_path <$> R)) as HndR.
  { eapply sublist_NoDup; [exact Hndrest|].
    apply fmap_sublist, sublist_filter. }
  assert (NoDup R) as HndR' by (by apply NoDup_fmap_1 in HndR).
  assert (forall b, b ∈ R -> b ∈ P) as HRP.
  { intros b Hb. by apply list_elem_of_filter in Hb as [? _]. }
  assert (NoDup (month_of <$> P)) as HndP.
  { unfold P, monthly. rewrite kept_of_months. apply NoDup_filter.
    pose proof (sorted_keys_NoDup monthly) as Hk. fold monthly in Hkeys.
    rewrite Hkeys in Hk. by apply NoDup_app in Hk as (? & _ & _). }
  repeat split.
  - assert (length R <= length P)%nat as Hlen
      by (apply submseteq_length, NoDup_submseteq; done).
    pose proof (kept_of_length (drop 4 backups) cutoff new) as HlenP.
    fold monthly in HlenP. fold P in HlenP. lia.
  - apply Forall_forall. intros b Hb. apply HRP in Hb.
    by apply kept_of_elem_of in Hb as (_ & _ & ?).
  - apply NoDup_fmap_2_strong; [|done].
    intros x y Hx Hy. apply (NoDup_fmap_inj month_of P); auto.
  - done.
Qed.

(** The decision on a catalog of more than 4 backups with pairwise
    different paths. *)
Lemma rotate_large_shape (backups : list backup) (today : date) (d : decision) :
  (4 < length backups)%nat ->
  NoDup (b_path <$> backups) ->
  rotate backups today = Ok d ->
  exists cutoff new,
    Date.sub_days today 365 = Ok cutoff /\
    keep d = take 4 backups ++ monthly_kept backups cutoff new /\
    (length (monthly_kept backups cutoff new) <= 12)%nat /\
    Forall (fun b => Date.geb (b_date b) cutoff = true)
           (monthly_kept backups cutoff new) /\
    NoDup (month_of <$> monthly_kept backups cutoff new).
Proof.
  intros Hl Hnd Hrot.
  destruct (rotate_large backups today d Hl Hrot)
    as (cutoff & new & skipped & Hcut & Hkeys & _ & Hle & _ & ->).
  destruct (monthly_kept_facts backups cutoff new skipped Hnd Hkeys Hle)
    as (? & ? & ? & _).
  exists cutoff, new. simpl. rewrite keep_shape by done. done.
Qed.

Lemma drop_not_in_take (backups : list backup) (b : backup) :
  NoDup (b_path <$> backups) -> b ∈ drop 4 backups -> b ∉ take 4 backups.
Proof.
  intros Hnd Hd Ht. apply NoDup_fmap_1 in Hnd.
  rewrite <- (take_drop 4 backups) in Hnd.
  apply NoDup_app in Hnd as (_ & Hdisj & _). by apply (Hdisj b).
Qed.

(** When the backups beyond the 4 newest are at most 12, of pairwise
    different months and none older than the cutoff, nothing is deleted. *)
Lemma rotate_all_kept (K : list backup) (today cutoff : date) :
  (4 < length K)%nat ->
  Date.sub_days today 365 = Ok cutoff ->
  Forall (fun b => Date.geb (b_date b) cutoff = true) (drop 4 K) ->
  NoDup (month_of <$> drop 4 K) ->
  (length (drop 4 K) <= 12)%nat ->
  rotate K today = Ok (mkdecision K []).
Proof.
  intros Hl Hcut Hall Hnd Hlen.
  destruct (rotate_state_run K today cutoff Hcut)
    as (new & skipped & Hkeys & Hskip & _ & Hrun).
  set (R := drop 4 K) in *. set (monthly := group_by_month R) in *.
  rewrite Forall_forall in Hall.
  (* the oldest of the group of a month of [R] is the backup of that month *)
  assert (forall b, b ∈ R -> oldest_of monthly (month_of b) = Some b) as Hold.
  { intros b Hb.
    assert (month_of b ∈ sorted_keys monthly) as Hk.
    { apply sorted_keys_group. by apply list_elem_of_fmap_2. }
    apply group_nonempty in Hk.
    destruct (oldest_of monthly (month_of b)) as [b'|] eqn:E.
    - f_equal. apply oldest_of_group in E as [Hb' Hm].
      by apply (NoDup_fmap_inj month_of R).
    - exfalso. apply Hk. unfold oldest_of in E.
      apply head_None in E. by apply stable_sort_nil_inv in E. }
  assert (forall k, k ∈ sorted_keys monthly -> passes monthly cutoff k = true)
    as Hpass.
  { intros k Hk. apply sorted_keys_group in Hk.
    apply list_elem_of_fmap in Hk as (b & -> & Hb).
    unfold passes. rewrite (Hold b Hb). by apply Hall. }
  (* all the groups are looked at *)
  assert (skipped = []) as ->.
  { destruct skipped as [|k skipped]; [done|]. exfalso.
    assert (kept_among monthly cutoff new = Z.of_nat (length new)) as Hka.
    { unfold kept_among. rewrite filter_all; [done|].
      apply Forall_forall. intros k' Hk'. apply Hpass.
      rewrite Hkeys. apply elem_of_app. by left. }
    assert (length (sorted_keys monthly) <= length R)%nat as Hle.
    { rewrite <- (length_fmap month_of R).
      apply submseteq_length, NoDup_submseteq; [apply sorted_keys_NoDup|].
      intros k' Hk'. by apply sorted_keys_group. }
    rewrite Hkeys, length_app in Hle. simpl in Hle.
    specialize (Hskip ltac:(done)). lia. }
  rewrite app_nil_r in Hkeys. subst new.
  assert (forall b, b ∈ K ->
            b_path b ∈ (list_to_set (b_path <$> take 4 K) ∪
              list_to_set (b_path <$> kept_of monthly cutoff (sorted_keys monthly))
              : gset string)) as Hin.
  { intros b Hb. rewrite <- (take_drop 4 K) in Hb.
    apply elem_of_app in Hb as [Hb|Hb].
    - apply elem_of_union_l, elem_of_list_to_set. by apply list_elem_of_fmap_2.
    - apply elem_of_union_r, elem_of_list_to_set, list_elem_of_fmap_2.
      unfold kept_of. apply list_elem_of_omap. exists (month_of b).
      split; [|by apply Hold].
      apply list_elem_of_filter.
      assert (month_of b ∈ sorted_keys monthly) as Hk.
      { apply sorted_keys_group. by apply list_elem_of_fmap_2. }
      split; [by apply Hpass|done]. }
  unfold rotate. destruct (Nat.leb_spec (length K) 4); [lia|].
  rewrite Hrun. simpl. f_equal. f_equal.
  - apply filter_all, Forall_forall. exact Hin.
  - apply filter_none, Forall_forall. intros b Hb Hn. by apply Hn, Hin.
Qed.

Lemma rotate_kept_fixed (backups : list backup) (today : date)
    (d : decision) :
  NoDup (b_path <$> backups) ->
  rotate backups today = Ok d ->
  rotate (keep d) today = Ok (mkdecision (keep d) []).
Proof.
  intros Hnd Hrot.
  destruct (Nat.leb_spec (length backups) 4) as [Hl|Hl].
  { rewrite rotate_small in Hrot by done. inv Hrot. simpl.
    by apply rotate_small. }
  destruct (rotate_large_shape backups today d Hl Hnd Hrot)
    as (cutoff & new & Hcut & -> & Hlen & Hall & HndR).
  assert (length (take 4 backups) = 4%nat) as Ht
    by (rewrite length_take; lia).
  destruct (monthly_kept backups cutoff new) as [|b R] eqn:ER.
  { apply rotate_small. rewrite length_app, Ht. simpl. lia. }
  rewrite <- ER in *.
  apply (rotate_all_kept _ today cutoff).
  - rewrite length_app, Ht, ER. simpl. lia.
  - done.
  - by rewrite drop_app_length'.
  - by rewrite drop_app_length'.
  - by rewrite drop_app_length'.
Qed.

(** The backups whose files are not removed are the backups kept. *)
Lemma not_deleted_kept (backups : list backup) (today : date) (d : decision) :
  rotate backups today = Ok d ->
  filter (fun b => b_path b ∉ b_path <$> delete d) backups = keep d.
Proof.
  intros Hrot.
  destruct (Nat.leb_spec (length backups) 4) as [Hl|Hl].
  { rewrite rotate_small in Hrot by done. inv Hrot. simpl.
    apply filter_all, Forall_forall. intros b _. apply not_elem_of_nil. }
  destruct (rotate_large backups today d Hl Hrot)
    as (c & new & skipped & _ & _ & _ & _ & _ & ->). simpl.
  apply filter_ext_in. intros b Hb. split.
  - intros Hn. destruct (decide (b_path b ∈ kept_paths backups c new)); [done|].
    exfalso. apply Hn, list_elem_of_fmap_2. by apply list_elem_of_filter.
  - intros Hk (b' & Heq & Hb')%list_elem_of_fmap.
    apply list_elem_of_filter in Hb' as [Hn _]. apply Hn. by rewrite <- Heq.
Qed.

(** ** The catalog *)

Lemma collect_cons (app_dir f : string) (names : list string)
    (acc : list backup) :
  collect app_dir (f :: names) acc =
  match parse_backup_date f with
  | Ok _ => collect app_dir names (acc ++ listed app_dir f)
  | Raise e => Raise e
  end.
Proof.
  unfold listed. simpl.
  destruct (parse_backup_date f) as [[dt|]|e]; simpl; [done| |done].
  by rewrite app_nil_r.
Qed.

Lemma collect_Ok (app_dir : string) (names : list string)
    (acc l : list backup) :
  collect app_dir names acc = Ok l <->
  Forall parses names /\ l = acc ++ (names ≫= listed app_dir).
Proof.
  revert acc. induction names as [|f names IH]; intros acc.
  - simpl. rewrite app_nil_r. split; [intros [= ->]; by split|by intros [_ ->]].
  - rewrite collect_cons, bind_cons.
    destruct (parse_backup_date f) as [od|e] eqn:E.
    + rewrite IH, <- app_assoc. split.
      * intros [? ->]. split; [|done]. constructor; [by exists od|done].
      * intros [HF ->]. by inv HF.
    + split; [done|]. intros [HF _]. inv HF.
      match goal with H : parses f |- _ => destruct H as [od Hod] end.
      congruence.
Qed.

Lemma get_existing_backups_Ok (app_dir : string) (names : list string)
    (backups : list backup) :
  get_existing_backups app_dir (Some names) = Ok backups <->
  Forall parses names /\
  backups = sort_newest_first (names ≫= listed app_dir).
Proof.
  unfold get_existing_backups.
  destruct (collect app_dir names []) as [l|e] eqn:E; simpl.
  - apply collect_Ok in E as [HF ->]. simpl. split.
    + intros [= <-]. by split.
    + by intros [_ ->].
  - split; [done|]. intros [HF _].
    assert (collect app_dir names [] = Ok ([] ++ (names ≫= listed app_dir)))
      as E' by (by apply collect_Ok).
    congruence.
Qed.

(** Listing the directory raises exactly when one of its names has the
    shape of a date that [strptime] rejects. *)
Lemma get_existing_backups_raises (app_dir : string) (names : list string) :
  (exists e, get_existing_backups app_dir (Some names) = Raise e) <->
  Exists (fun f => parse_backup_date f = Raise ValueError) names.
Proof.
  assert (forall f, parses f \/ parse_backup_date f = Raise ValueError) as Hdec.
  { intros f. unfold parses, parse_backup_date.
    destruct (Re.search _) as [g|]; [|left; by eexists].
    unfold Strptime.strptime.
    do 11 (destruct g as [|? g]; try by right).
    destruct (_ && _); [|by right].
    unfold Date.date_new. destruct (Date.valid _ _ _); [|by right].
    left. by eexists. }
  assert (Forall parses names \/
          Exists (fun f => parse_backup_date f = Raise ValueError) names)
    as Hcases.
  { induction names as [|f names [IH|IH]].
    - left. constructor.
    - destruct (Hdec f); [left; by constructor|right; by left].
    - right. by right. }
  split.
  - intros [e He]. destruct Hcases as [HF|?]; [|done].
    assert (get_existing_backups app_dir (Some names) =
            Ok (sort_newest_first (names ≫= listed app_dir))) as E
      by (by apply get_existing_backups_Ok).
    congruence.
  - intros Hex.
    destruct (get_existing_backups app_dir (Some names)) as [l|e] eqn:E;
      [|by eexists].
    apply get_existing_backups_Ok in E as [HF _].
    apply Exists_exists in Hex as (f & Hf & Hr).
    rewrite Forall_forall in HF. destruct (HF f Hf) as [od Hod]. congruence.
Qed.

(** The catalog is ordered newest first. *)
Lemma get_existing_backups_sorted (app_dir : string)
    (dir : option (list string)) (backups : list backup) :
  get_existing_backups app_dir dir = Ok backups ->
  StronglySorted (fun x y => Date.geb (b_date x) (b_date y) = true) backups.
Proof.
  destruct dir as [names|]; [|intros [= <-]; constructor].
  intros [_ ->]%get_existing_backups_Ok.
  apply Sorted_StronglySorted.
  - intros x y z. unfold Date.geb. intros ??. by eapply date_leb_trans.
  - apply (stable_sort_Sorted (fun x y => Date.geb (b_date x) (b_date y))).
    intros x y. unfold Date.geb. apply date_leb_total.
Qed.

Lemma append_cancel_l (s a b : string) : s +:+ a = s +:+ b -> a = b.
Proof.
  induction s as [|c s IH]; simpl; [done|]. intros [= E]. by apply IH.
Qed.

Lemma path_join_inj (app_dir : string) : Inj (=) (=) (path_join app_dir).
Proof.
  intros f g E. unfold path_join in E.
  by apply append_cancel_l, append_cancel_l in E.
Qed.

Lemma listed_path (app_dir f : string) (b : backup) :
  b ∈ listed app_dir f -> b_file b = f /\ b_path b = path_join app_dir f.
Proof.
  unfold listed. destruct (parse_backup_date f) as [[dt|]|e];
    intros Hb; try by apply elem_of_nil in Hb.
  by apply list_elem_of_singleton in Hb as ->.
Qed.

Lemma listed_paths_NoDup (app_dir : string) (names : list string) :
  NoDup names -> NoDup (b_path <$> (names ≫= listed app_dir)).
Proof.
  induction 1 as [|f names Hf Hnd IH]; [constructor|].
  rewrite bind_cons, fmap_app. apply NoDup_app. split; [|split; [|done]].
  - unfold listed. destruct (parse_backup_date f) as [[dt|]|e]; simpl;
      repeat constructor; apply not_elem_of_nil.
  - intros p Hp Hp'.
    apply list_elem_of_fmap in Hp as (b & -> & Hb).
    apply list_elem_of_fmap in Hp' as (b' & Heq & Hb').
    apply listed_path in Hb as [_ Hb].
    apply list_elem_of_bind in Hb' as (g & Hb' & Hg).
    apply listed_path in Hb' as [_ Hb'].
    rewrite Hb, Hb' in Heq. apply path_join_inj in Heq. by subst.
Qed.

(** The names of a directory are pairwise different, and so are the paths
    of the catalog made from them. *)
Lemma get_existing_backups_NoDup (app_dir : string)
    (dir : option (list string)) (backups : list backup) :
  (forall names, dir = Some names -> NoDup names) ->
  get_existing_backups app_dir dir = Ok backups ->
  NoDup (b_path <$> backups).
Proof.
  destruct dir as [names|]; [|intros _ [= <-]; constructor].
  intros Hnd [_ ->]%get_existing_backups_Ok.
  unfold sort_newest_first. rewrite stable_sort_Permutation.
  apply listed_paths_NoDup. by apply Hnd.
Qed.

(** The dates of the catalog are dates of the calendar. *)
Lemma strptime_valid (g : list ascii) (d : date) :
  Strptime.strptime g = Ok d -> Date.valid_date d.
Proof.
  unfold Strptime.strptime.
  do 11 (destruct g as [|? g]; try done).
  destruct (_ && _); [|done].
  unfold Date.date_new.
  destruct (Date.valid _ _ _) eqn:E; [|done]. by intros [= <-].
Qed.

Lemma listed_valid (app_dir f : string) (b : backup) :
  b ∈ listed app_dir f -> Date.valid_date (b_date b).
Proof.
  unfold listed, parse_backup_date.
  destruct (Re.search _) as [g|]; simpl.
  - destruct (Strptime.strptime g) as [d|e] eqn:E; simpl.
    + intros ->%list_elem_of_singleton. by apply strptime_valid in E.
    + by intros ?%elem_of_nil.
  - by intros ?%elem_of_nil.
Qed.

Lemma get_existing_backups_valid (app_dir : string)
    (dir : option (list string)) (backups : list backup) :
  get_existing_backups app_dir dir = Ok backups ->
  Forall (fun b => Date.valid_date (b_date b)) backups.
Proof.
  destruct dir as [names|]; [|intros [= <-]; constructor].
  intros [_ ->]%get_existing_backups_Ok. apply Forall_forall. intros b Hb.
  unfold sort_newest_first in Hb. rewrite stable_sort_Permutation in Hb.
  apply list_elem_of_bind in Hb as (f & Hb & _). by eapply listed_valid.
Qed.

(** Removing files from the directory removes their backups from the
    catalog and leaves the others in their order. *)
Lemma listed_filter (app_dir : string) (names deleted : list string) :
  filter (fun f => path_join app_dir f ∉ deleted) names ≫= listed app_dir =
  filter (fun b => b_path b ∉ deleted) (names ≫= listed app_dir).
Proof.
  induction names as [|f names IH]; [done|].
  rewrite bind_cons, filter_app, <- IH.
  destruct (decide (path_join app_dir f ∉ deleted)) as [Hf|Hf].
  - rewrite filter_cons_True, bind_cons by done. f_equal.
    symmetry. apply filter_all, Forall_forall.
    intros b [_ ->]%listed_path. done.
  - rewrite filter_cons_False by done.
    rewrite (filter_none (fun b => b_path b ∉ deleted) (listed app_dir f));
      [done|].
    apply Forall_forall. intros b [_ ->]%listed_path. by intros ?.
Qed.

Lemma get_existing_backups_remove_all (app_dir : string)
    (names : list string) (backups deleted : list backup) :
  get_existing_backups app_dir (Some names) = Ok backups ->
  get_existing_backups app_dir (Some (remove_all app_dir deleted names)) =
    Ok (filter (fun b => b_path b ∉ b_path <$> deleted) backups).
Proof.
  intros [HF ->]%get_existing_backups_Ok. apply get_existing_backups_Ok.
  unfold remove_all. split.
  - apply Forall_forall. intros f [_ Hf]%list_elem_of_filter.
    rewrite Forall_forall in HF. by apply HF.
  - rewrite listed_filter. unfold sort_newest_first.
    apply stable_sort_filter.
    + intros x y. unfold Date.geb. apply date_leb_total.
    + intros x y z. unfold Date.geb. intros ??. by eapply date_leb_trans.
Qed.

(** * The claims *)

(** C1. On every catalog, for every day [today] the clock can show from the
    year 2 on, [rotate] raises nothing and its decision is a partition of
    the catalog: [keep] and [delete] together hold every backup of the
    catalog exactly once, and no backup is in both. *)
Theorem rotate_total_partition (backups : list backup) (today : date) :
  Date.valid_date today -> 2 <= Date.year today ->
  exists d,
    rotate backups today = Ok d /\
    keep d ++ delete d ≡ₚ backups /\
    (forall b, b ∈ backups <-> b ∈ keep d \/ b ∈ delete d) /\
    (forall b, b ∈ keep d -> b ∉ delete d).
Proof.
  intros Hv Hy.
  assert (exists d, rotate backups today = Ok d /\
            keep d ++ delete d ≡ₚ backups /\
            (forall b, b ∈ keep d -> b ∉ delete d)) as (d & Hrot & Hperm & Hdisj).
  { destruct (Nat.leb_spec (length backups) 4) as [Hl|Hl].
    - exists (mkdecision backups []). rewrite rotate_small by done. simpl.
      rewrite app_nil_r. repeat split; [done|]. intros b _. apply not_elem_of_nil.
    - destruct (sub_days_365_ok today Hv Hy) as [cutoff Hcut].
      destruct (rotate_large_ok backups today cutoff Hl Hcut) as [d Hrot].
      exists d. split; [done|].
      destruct (rotate_large backups today d Hl Hrot)
        as (c & new & skipped & _ & _ & _ & _ & _ & ->). simpl. split.
      + apply (filter_app_complement
                 (fun b => b_path b ∈ kept_paths backups c new)).
      + intros b Hk Hd. apply list_elem_of_filter in Hk as [Hk _].
        apply list_elem_of_filter in Hd as [Hd _]. done. }
  exists d. repeat split; try done.
  - intros Hb. rewrite <- Hperm in Hb. by apply elem_of_app in Hb.
  - intros Hb. rewrite <- Hperm. by apply elem_of_app.
Qed.

Lemma rotate_total_partition_witness :
  exists d,
    rotate scenario_catalog scenario_today = Ok d /\
    keep d ++ delete d ≡ₚ scenario_catalog /\
    (forall b, b ∈ scenario_catalog <-> b ∈ keep d \/ b ∈ delete d) /\
    (forall b, b ∈ keep d -> b ∉ delete d).
Proof.
  apply (rotate_total_partition scenario_catalog scenario_today).
  - reflexivity.
  - vm_compute. discriminate.
Defined.

(** C2. A name whose suffix has the shape of a date but is no calendar
    date is not left out of the catalog: [strptime] raises [ValueError],
    which neither [parse_backup_date] nor [get_existing_backups] catches,
    so that listing the directory, [should_backup] and [rotate_backups] all
    raise. A name without the shape is left out silently, and a name with
    a newline after a valid date is listed. *)
Theorem invalid_date_suffix_raises :
  parse_backup_date "database.db.2024-02-30" = Raise ValueError /\
  get_existing_backups "backups/x"
    (Some ["database.db.2024-03-01"; "database.db.2024-02-30"]%string) =
    Raise ValueError /\
  should_backup "backups/x"
    (Some ["database.db.2024-03-01"; "database.db.2024-02-30"]%string)
    (Date.mkdate 2024 4 1) false = Raise ValueError /\
  rotate_backups "backups/x"
    (Some ["database.db.2024-03-01"; "database.db.2024-02-30"]%string)
    (Date.mkdate 2024 4 1) = Raise ValueError /\
  parse_backup_date "database.db.bak" = Ok None /\
  get_existing_backups "backups/x"
    (Some ["database.db.2024-03-01"; "database.db.bak"]%string) =
    Ok [backup_of "backups/x" "database.db.2024-03-01" 2024 3 1] /\
  get_existing_backups "backups/x"
    (Some ["database.db.2024-03-01" +:+ String Re.newline ""]) =
    Ok [backup_of "backups/x"
          ("database.db.2024-03-01" +:+ String Re.newline "") 2024 3 1].
Proof. repeat split; vm_compute; reflexivity. Qed.

(** C3. [should_backup] answers [True] when [force] is set and when the
    catalog is empty. Otherwise the catalog starts with its most recent
    backup [newest], and with [days_old = (today - newest.date).days] the
    answer is [False] when [0 <= days_old <= 7] and [True] when
    [7 < days_old]. *)
Theorem should_backup_gate (app_dir : string) (dir : option (list string))
    (today : date) :
  should_backup app_dir dir today true = Ok true /\
  (get_existing_backups app_dir dir = Ok [] ->
   should_backup app_dir dir today false = Ok true) /\
  (forall newest others,
     get_existing_backups app_dir dir = Ok (newest :: others) ->
     let days_old := Date.days_between today (b_date newest) in
     Forall (fun b => Date.leb (b_date b) (b_date newest) = true) others /\
     (0 <= days_old <= 7 ->
      should_backup app_dir dir today false = Ok false) /\
     (7 < days_old ->
      should_backup app_dir dir today false = Ok true)).
Proof.
  split; [done|]. split.
  - intros Hcat. unfold should_backup. by rewrite Hcat.
  - intros newest others Hcat days_old. split; [|split].
    + apply get_existing_backups_sorted in Hcat. by inv Hcat.
    + intros Hd. unfold should_backup. rewrite Hcat. simpl.
      fold days_old. by destruct (Z.leb_spec days_old 7); [|lia].
    + intros Hd. unfold should_backup. rewrite Hcat. simpl.
      fold days_old. by destruct (Z.leb_spec days_old 7); [lia|].
Qed.

Lemma should_backup_gate_witness :
  should_backup "backups/x" None (Date.mkdate 2024 4 1) false = Ok true /\
  should_backup "backups/x" (Some ["x.db.2024-03-25"; "x.db.2024-03-18"]%string)
    (Date.mkdate 2024 4 1) false = Ok false /\
  should_backup "backups/x" (Some ["x.db.2024-03-18"; "x.db.2024-03-24"]%string)
    (Date.mkdate 2024 4 1) false = Ok true.
Proof.
  split; [|split].
  - apply (should_backup_gate "backups/x" None (Date.mkdate 2024 4 1)).
    reflexivity.
  - eapply (should_backup_gate "backups/x"
              (Some ["x.db.2024-03-25"; "x.db.2024-03-18"]%string)
              (Date.mkdate 2024 4 1)).
    + vm_compute. reflexivity.
    + vm_compute. split; discriminate.
  - eapply (should_backup_gate "backups/x"
              (Some ["x.db.2024-03-18"; "x.db.2024-03-24"]%string)
              (Date.mkdate 2024 4 1)).
    + vm_compute. reflexivity.
    + vm_compute. reflexivity.
Defined.

(** C4. A catalog of at most 4 backups is kept whole and nothing is
    deleted. On every catalog, a backup at one of the positions 0 to 3 is
    kept and is not deleted: what is deleted stands at position 4 or
    later. *)
Theorem rotate_keeps_four_newest (backups : list backup) (today : date) :
  ((length backups <= 4)%nat ->
   rotate backups today = Ok (mkdecision backups [])) /\
  (forall d, rotate backups today = Ok d ->
     (forall i b, backups !! i = Some b -> (i < 4)%nat ->
        b ∈ keep d /\ b ∉ delete d) /\
     (forall i b, backups !! i = Some b -> b ∈ delete d -> (4 <= i)%nat)).
Proof.
  split; [apply rotate_small|].
  intros d Hrot.
  assert (forall i b, backups !! i = Some b -> (i < 4)%nat ->
            b ∈ keep d /\ b ∉ delete d) as Htop.
  { intros i b Hi Hlt.
    destruct (Nat.leb_spec (length backups) 4) as [Hl|Hl].
    - rewrite rotate_small in Hrot by done. inv Hrot. simpl.
      split; [by eapply list_elem_of_lookup_2|apply not_elem_of_nil].
    - destruct (rotate_large backups today d Hl Hrot)
        as (c & new & skipped & _ & _ & _ & _ & _ & ->). simpl.
      assert (b_path b ∈ kept_paths backups c new) as Hin.
      { apply top_in_kept_paths, elem_of_take. eauto. }
      split.
      + apply list_elem_of_filter. split; [done|by eapply list_elem_of_lookup_2].
      + intros Hd. by apply list_elem_of_filter in Hd as [Hd _]. }
  split; [done|].
  intros i b Hi Hd. destruct (Nat.le_gt_cases 4 i) as [|Hlt]; [done|].
  by destruct (Htop i b Hi Hlt).
Qed.

Lemma rotate_keeps_four_newest_witness :
  rotate (take 3 scenario_catalog) scenario_today =
    Ok (mkdecision (take 3 scenario_catalog) []) /\
  exists d, rotate scenario_catalog scenario_today = Ok d /\
    (forall i b, scenario_catalog !! i = Some b -> (i < 4)%nat ->
       b ∈ keep d /\ b ∉ delete d) /\
    (forall i b, scenario_catalog !! i = Some b -> b ∈ delete d -> (4 <= i)%nat).
Proof.
  split.
  - apply (rotate_keeps_four_newest (take 3 scenario_catalog) scenario_today).
    simpl. lia.
  - eexists. split; [vm_compute; reflexivity|].
    apply (rotate_keeps_four_newest scenario_catalog scenario_today).
    vm_compute. reflexivity.
Defined.

(** C5. On a catalog with pairwise different paths, of the backups at the
    positions from 4 on [rotate] keeps at most 12, and each one it keeps
    has a date [>= today - timedelta(days=365)], the cutoff included: it is
    at most 365 days older than [today]. *)
Theorem monthly_tier_bounded (backups : list backup) (today : date)
    (d : decision) :
  NoDup (b_path <$> backups) ->
  rotate backups today = Ok d ->
  (length (filter (fun b => b ∈ keep d) (drop 4 backups)) <= 12)%nat /\
  (forall i b, backups !! i = Some b -> (4 <= i)%nat -> b ∈ keep d ->
     exists cutoff,
       Date.sub_days today 365 = Ok cutoff /\
       Date.geb (b_date b) cutoff = true /\
       (Date.valid_date (b_date b) ->
        Date.days_between today (b_date b) <= 365)).
Proof.
  intros Hnd Hrot.
  destruct (Nat.leb_spec (length backups) 4) as [Hl|Hl].
  { rewrite drop_ge by done. split; [simpl; lia|].
    intros i b Hi Hge. apply lookup_lt_Some in Hi. lia. }
  destruct (rotate_large_shape backups today d Hl Hnd Hrot)
    as (cutoff & new & Hcut & Hkeep & Hlen & Hall & _).
  assert (forall b, b ∈ drop 4 backups ->
            b ∈ keep d <-> b ∈ monthly_kept backups cutoff new) as Hiff.
  { intros b Hb. rewrite Hkeep, elem_of_app. split; [|by right].
    intros [Ht|?]; [|done]. by apply drop_not_in_take in Ht. }
  split.
  - rewrite (filter_ext_in _ (fun b => b ∈ monthly_kept backups cutoff new))
      by done.
    etransitivity; [|exact Hlen].
    apply submseteq_length, NoDup_submseteq.
    + apply NoDup_filter. eapply NoDup_fmap_1, sublist_NoDup; [exact Hnd|].
      apply fmap_sublist, sublist_drop.
    + intros b Hb. by apply list_elem_of_filter in Hb as [? _].
  - intros i b Hi Hge Hb. exists cutoff. split; [done|].
    assert (b ∈ drop 4 backups) as Hd.
    { apply list_elem_of_lookup. exists (i - 4)%nat. rewrite lookup_drop.
      by replace (4 + (i - 4))%nat with i by lia. }
    apply Hiff in Hb; [|done].
    rewrite Forall_forall in Hall.
    split; [by apply Hall|].
    intros Hv. apply (cutoff_age today cutoff); auto.
Qed.

Lemma monthly_tier_bounded_witness :
  exists d,
    rotate scenario_catalog scenario_today = Ok d /\
    (length (filter (fun b => b ∈ keep d) (drop 4 scenario_catalog)) <= 12)%nat /\
    (forall i b, scenario_catalog !! i = Some b -> (4 <= i)%nat -> b ∈ keep d ->
       exists cutoff,
         Date.sub_days scenario_today 365 = Ok cutoff /\
         Date.geb (b_date b) cutoff = true /\
         (Date.valid_date (b_date b) ->
          Date.days_between scenario_today (b_date b) <= 365)).
Proof.
  eexists. split; [vm_compute; reflexivity|].
  apply (monthly_tier_bounded scenario_catalog scenario_today).
  - apply (bool_decide_unpack _). vm_compute. reflexivity.
  - vm_compute. reflexivity.
Defined.

(** C6. For the same [today], [rotate] on the backups a first [rotate]
    keeps, of a catalog with pairwise different paths, keeps them all and
    deletes nothing. So does [rotate_backups] on the directory a first
    [rotate_backups] leaves: its catalog is the kept backups, and no file
    is removed. *)
Theorem rotate_idempotent (today : date) :
  (forall backups d,
     NoDup (b_path <$> backups) ->
     rotate backups today = Ok d ->
     rotate (keep d) today = Ok (mkdecision (keep d) [])) /\
  (forall app_dir dir d dir',
     (forall names, dir = Some names -> NoDup names) ->
     rotate_backups app_dir dir today = Ok (d, dir') ->
     get_existing_backups app_dir dir' = Ok (keep d) /\
     rotate_backups app_dir dir' today = Ok (mkdecision (keep d) [], dir')).
Proof.
  split; [intros backups d; apply rotate_kept_fixed|].
  intros app_dir dir d dir' Hnd Hrun. unfold rotate_backups in Hrun.
  destruct (get_existing_backups app_dir dir) as [backups|e] eqn:Hcat; [|done].
  simpl in Hrun.
  destruct (rotate backups today) as [d0|e] eqn:Hrot; [|done].
  simpl in Hrun. injection Hrun as -> <-.
  assert (get_existing_backups app_dir (remove_all app_dir (delete d) <$> dir)
          = Ok (keep d)) as Hcat'.
  { destruct dir as [names|].
    - rewrite <- (not_deleted_kept backups today d Hrot).
      by apply get_existing_backups_remove_all.
    - simpl in Hcat. injection Hcat as <-.
      rewrite rotate_small in Hrot by (simpl; lia). by injection Hrot as <-. }
  split; [done|].
  unfold rotate_backups. rewrite Hcat'. simpl.
  rewrite (rotate_kept_fixed backups today d);
    [|by eapply get_existing_backups_NoDup|done].
  simpl. do 2 f_equal.
  destruct dir as [names|]; simpl; [|done]. f_equal.
  unfold remove_all at 1. apply filter_all, Forall_forall.
  intros f _. apply not_elem_of_nil.
Qed.

Lemma rotate_idempotent_witness :
  (exists d,
     rotate scenario_catalog scenario_today = Ok d /\
     rotate (keep d) scenario_today = Ok (mkdecision (keep d) [])) /\
  (exists d dir',
     rotate_backups "backups/x"
       (Some ["x.db.2024-03-01"; "x.db.2024-01-20"; "database.db.bak";
              "x.db.2024-03-29"; "x.db.2024-02-10"; "x.db.2024-01-05";
              "x.db.2024-03-15"; "x.db.2024-03-22"]%string) scenario_today =
       Ok (d, dir') /\
     get_existing_backups "backups/x" dir' = Ok (keep d) /\
     rotate_backups "backups/x" dir' scenario_today =
       Ok (mkdecision (keep d) [], dir')).
Proof.
  split.
  - eexists. split; [vm_compute; reflexivity|].
    apply (proj1 (rotate_idempotent scenario_today) scenario_catalog).
    + apply (bool_decide_unpack _). vm_compute. reflexivity.
    + vm_compute. reflexivity.
  - eexists. eexists. split; [vm_compute; reflexivity|].
    apply (proj2 (rotate_idempotent scenario_today) "backups/x"%string
             (Some ["x.db.2024-03-01"; "x.db.2024-01-20"; "database.db.bak";
                    "x.db.2024-03-29"; "x.db.2024-02-10"; "x.db.2024-01-05";
                    "x.db.2024-03-15"; "x.db.2024-03-22"]%string)).
    + intros names [= <-]. apply (bool_decide_unpack _). vm_compute. reflexivity.
    + vm_compute. reflexivity.
Defined.

(** C7, as stated, fails: with thirteen month groups that all pass the
    cutoff, the loop breaks before the thirteenth (December 2022), which it
    does not look at. *)
Lemma loop_stops_at_the_cap :
  ~ looks_at_all_groups thirteen_months_catalog thirteen_months_today.
Proof.
  intros H.
  specialize (H (mkstate
    (list_to_set (b_path <$> take 16 thirteen_months_catalog)) 12
    [(2023, 12); (2023, 11); (2023, 10); (2023, 9); (2023, 8); (2023, 7);
     (2023, 6); (2023, 5); (2023, 4); (2023, 3); (2023, 2); (2023, 1)])).
  assert (sorted_keys (group_by_month (drop 4 thirteen_months_catalog)) =
    [(2023, 12); (2023, 11); (2023, 10); (2023, 9); (2023, 8); (2023, 7);
     (2023, 6); (2023, 5); (2023, 4); (2023, 3); (2023, 2); (2023, 1);
     (2022, 12)]) as E by (vm_compute; reflexivity).
  rewrite E in H. simpl in H.
  assert (rotate_state thirteen_months_catalog thirteen_months_today =
    Ok (mkstate
    (list_to_set (b_path <$> take 16 thirteen_months_catalog)) 12
    [(2023, 12); (2023, 11); (2023, 10); (2023, 9); (2023, 8); (2023, 7);
     (2023, 6); (2023, 5); (2023, 4); (2023, 3); (2023, 2); (2023, 1)])) as Hrun.
  { vm_compute. reflexivity. }
  specialize (H Hrun). discriminate H.
Qed.

(** C7, amended. The month keys are looked at in strictly descending
    order. The loop looks at a prefix of them and leaves the others out
    only when 12 months have been kept. The counter is the number of
    groups looked at whose oldest backup is not older than the cutoff: a
    group that fails the cutoff does not count, and the groups after it are
    still looked at as long as fewer than 12 months have been kept. Once 12
    months have been kept the loop stops: every group it looked at, it
    looked at while the groups before it had given fewer than 12 kept
    months, so no group is looked at after the twelfth kept one. *)
Theorem monthly_loop_order (backups : list backup) (today : date)
    (st : loop_state) :
  rotate_state backups today = Ok st ->
  let monthly := group_by_month (drop 4 backups) in
  let keys := sorted_keys monthly in
  StronglySorted key_gt keys /\
  (forall k, k ∈ keys <-> k ∈ month_of <$> drop 4 backups) /\
  exists cutoff skipped,
    Date.sub_days today 365 = Ok cutoff /\
    keys = evaluated st ++ skipped /\
    months_kept st = kept_among monthly cutoff (evaluated st) /\
    months_kept st <= 12 /\
    (skipped <> [] -> months_kept st = 12) /\
    (months_kept st < 12 -> evaluated st = keys) /\
    (forall before k after,
       evaluated st = before ++ k :: after ->
       kept_among monthly cutoff before < 12).
Proof.
  intros Hrun monthly keys.
  split; [apply sorted_keys_descending|].
  split; [intros k; apply sorted_keys_group|].
  destruct (Date.sub_days today 365) as [cutoff|e] eqn:Hcut.
  - assert (forall before k after,
              evaluated st = before ++ k :: after ->
              kept_among monthly cutoff before < 12) as Hstop.
    { pose proof Hrun as Hloop. unfold rotate_state in Hloop.
      rewrite Hcut in Hloop. simpl in Hloop.
      apply monthly_loop_prefix in Hloop as (new & Hev & Hbefore).
      simpl in Hev, Hbefore. intros before k after Hsplit.
      rewrite Hev in Hsplit. apply (Hbefore before k after Hsplit). }
    destruct (rotate_state_run backups today cutoff Hcut)
      as (new & skipped & Hkeys & Hskip & Hle & Hrun').
    rewrite Hrun' in Hrun. inv Hrun. simpl in *.
    exists cutoff, skipped.
    split; [done|]. split; [done|]. split; [done|]. split; [done|].
    split; [done|]. split; [|done].
    intros Hlt. destruct skipped as [|k skipped].
    + by rewrite app_nil_r in Hkeys.
    + specialize (Hskip ltac:(done)). exfalso. lia.
  - unfold rotate_state in Hrun. rewrite Hcut in Hrun. done.
Qed.

Lemma monthly_loop_order_witness :
  exists st,
    rotate_state thirteen_months_catalog thirteen_months_today = Ok st /\
    let monthly := group_by_month (drop 4 thirteen_months_catalog) in
    let keys := sorted_keys monthly in
    StronglySorted key_gt keys /\
    (forall k, k ∈ keys <-> k ∈ month_of <$> drop 4 thirteen_months_catalog) /\
    exists cutoff skipped,
      Date.sub_days thirteen_months_today 365 = Ok cutoff /\
      keys = evaluated st ++ skipped /\
      months_kept st = kept_among monthly cutoff (evaluated st) /\
      months_kept st <= 12 /\
      (skipped <> [] -> months_kept st = 12) /\
      (months_kept st < 12 -> evaluated st = keys) /\
      (forall before k after,
         evaluated st = before ++ k :: after ->
         kept_among monthly cutoff before < 12).
Proof.
  eexists. split; [vm_compute; reflexivity|].
  apply (monthly_loop_order thirteen_months_catalog thirteen_months_today).
  vm_compute. reflexivity.
Defined.

(** C8. The scenario: on [2024-04-01], with backups dated 2024-03-29,
    03-22, 03-15, 03-01, 02-10, 01-20 and 01-05 in the directory (and a
    file [database.db.bak], which is not listed), [rotate_backups] keeps
    the backups of 03-29, 03-22, 03-15, 03-01, 02-10 and 01-05 and deletes
    only the one of 01-20. *)
Theorem scenario_rotation :
  get_existing_backups "backups/x"
    (Some ["x.db.2024-03-01"; "x.db.2024-01-20"; "database.db.bak";
           "x.db.2024-03-29"; "x.db.2024-02-10"; "x.db.2024-01-05";
           "x.db.2024-03-15"; "x.db.2024-03-22"]%string) = Ok scenario_catalog /\
  rotate scenario_catalog scenario_today =
    Ok (mkdecision
          [ backup_of "backups/x" "x.db.2024-03-29" 2024 3 29;
            backup_of "backups/x" "x.db.2024-03-22" 2024 3 22;
            backup_of "backups/x" "x.db.2024-03-15" 2024 3 15;
            backup_of "backups/x" "x.db.2024-03-01" 2024 3 1;
            backup_of "backups/x" "x.db.2024-02-10" 2024 2 10;
            backup_of "backups/x" "x.db.2024-01-05" 2024 1 5 ]
          [ backup_of "backups/x" "x.db.2024-01-20" 2024 1 20 ]) /\
  snd <$> rotate_backups "backups/x"
    (Some ["x.db.2024-03-01"; "x.db.2024-01-20"; "database.db.bak";
           "x.db.2024-03-29"; "x.db.2024-02-10"; "x.db.2024-01-05";
           "x.db.2024-03-15"; "x.db.2024-03-22"]%string) scenario_today =
    Ok (Some ["x.db.2024-03-01"; "database.db.bak";
              "x.db.2024-03-29"; "x.db.2024-02-10"; "x.db.2024-01-05";
              "x.db.2024-03-15"; "x.db.2024-03-22"]%string).
Proof. repeat split; vm_compute; reflexivity. Qed.

(** C9. On a catalog with pairwise different paths [rotate] keeps at most
    16 backups, however long the catalog is: the first 4 it keeps are the 4
    newest of the catalog, and the others, at most 12, come from the
    positions from 4 on. *)
Theorem rotate_keeps_at_most_16 (backups : list backup) (today : date)
    (d : decision) :
  NoDup (b_path <$> backups) ->
  rotate backups today = Ok d ->
  (length (keep d) <= 16)%nat /\
  take 4 (keep d) = take 4 backups /\
  drop 4 (keep d) `sublist_of` drop 4 backups /\
  (length (drop 4 (keep d)) <= 12)%nat.
Proof.
  intros Hnd Hrot.
  destruct (Nat.leb_spec (length backups) 4) as [Hl|Hl].
  - rewrite rotate_small in Hrot by done. inv Hrot. simpl.
    rewrite drop_ge by done. simpl. repeat split; (done || lia).
  - destruct (rotate_large_shape backups today d Hl Hnd Hrot)
      as (cutoff & new & _ & -> & Hlen & _).
    assert (length (take 4 backups) = 4%nat) as Ht
      by (rewrite length_take; lia).
    rewrite take_app_length', drop_app_length' by done.
    rewrite length_app. repeat split; try (done || lia).
    apply sublist_filter.
Qed.

Lemma rotate_keeps_at_most_16_witness :
  exists d,
    rotate scenario_catalog scenario_today = Ok d /\
    (length (keep d) <= 16)%nat /\
    take 4 (keep d) = take 4 scenario_catalog /\
    drop 4 (keep d) `sublist_of` drop 4 scenario_catalog /\
    (length (drop 4 (keep d)) <= 12)%nat.
Proof.
  eexists. split; [vm_compute; reflexivity|].
  apply (rotate_keeps_at_most_16 scenario_catalog scenario_today).
  - apply (bool_decide_unpack _). vm_compute. reflexivity.
  - vm_compute. reflexivity.
Defined.

(** C10, as stated, fails in its gloss: two files of 2024-03-07 come at
    the positions 3 and 4 in the order of the listing, the one at position
    4 is deleted because 2024-03-01 is the oldest of March, and no two
    files share the oldest date of a month. *)
Lemma order_matters_at_the_fourth_position :
  ~ order_matters_only_on_shared_oldest.
Proof.
  intros H.
  set (c1 := tie_catalog "x.db.2024-03-07" "y.db.2024-03-07").
  set (c2 := tie_catalog "y.db.2024-03-07" "x.db.2024-03-07").
  assert (share_oldest_date_in_month c1 \/
          share_oldest_date_in_month (drop 4 c1) \/
          share_oldest_date_in_month (drop 4 c2)) as Hs.
  { apply (H "backups/x"%string tie_names1 tie_names2 (Date.mkdate 2024 4 1)
             c1 c2
             (tie_decision "x.db.2024-03-07" "y.db.2024-03-07")
             (tie_decision "y.db.2024-03-07" "x.db.2024-03-07")).
    - do 3 (apply perm_skip). apply perm_swap.
    - vm_compute. reflexivity.
    - vm_compute. reflexivity.
    - vm_compute. reflexivity.
    - vm_compute. reflexivity.
    - discriminate. }
  assert (bool_decide (share_oldest_date_in_month c1) = false) as H1
    by (vm_compute; reflexivity).
  assert (bool_decide (share_oldest_date_in_month (drop 4 c1)) = false) as H2
    by (vm_compute; reflexivity).
  assert (bool_decide (share_oldest_date_in_month (drop 4 c2)) = false) as H3
    by (vm_compute; reflexivity).
  apply bool_decide_eq_false_1 in H1, H2, H3.
  destruct Hs as [?|[?|?]]; done.
Qed.

(** C10, amended. When no two backups of the catalog have the same date,
    every listing of the same files gives the same catalog and
    [rotate_backups] takes the same decision, for the same [today]: the
    order of the listing can only matter when two files share a date. *)
Theorem rotate_order_independent (app_dir : string)
    (names1 names2 : list string) (today : date) (c1 : list backup) :
  names1 ≡ₚ names2 ->
  get_existing_backups app_dir (Some names1) = Ok c1 ->
  NoDup (b_date <$> c1) ->
  get_existing_backups app_dir (Some names2) = Ok c1 /\
  fst <$> rotate_backups app_dir (Some names2) today =
  fst <$> rotate_backups app_dir (Some names1) today.
Proof.
  intros Hperm Hc1 Hnd.
  assert (get_existing_backups app_dir (Some names2) = Ok c1) as Hc2.
  { apply get_existing_backups_Ok in Hc1 as [HF ->].
    apply get_existing_backups_Ok. split; [by rewrite <- Hperm|].
    unfold sort_newest_first in *.
    rewrite stable_sort_Permutation in Hnd.
    apply stable_sort_unique.
    - intros x y. unfold Date.geb. apply date_leb_total.
    - intros x y z. unfold Date.geb. intros ??. by eapply date_leb_trans.
    - intros x y Hx Hy Hxy Hyx.
      apply (NoDup_fmap_inj b_date (names1 ≫= listed app_dir)); try done.
      unfold Date.geb in *. by apply date_leb_antisym.
    - by rewrite Hperm. }
  split; [done|].
  unfold rotate_backups. rewrite Hc1, Hc2. simpl.
  by destruct (rotate c1 today).
Qed.

Lemma rotate_order_independent_witness :
  get_existing_backups "backups/x"
    (Some ["x.db.2024-03-01"; "x.db.2024-01-20"; "x.db.2024-03-29";
           "x.db.2024-02-10"; "x.db.2024-01-05"; "x.db.2024-03-15";
           "x.db.2024-03-22"]%string) = Ok scenario_catalog /\
  fst <$> rotate_backups "backups/x"
    (Some ["x.db.2024-03-01"; "x.db.2024-01-20"; "x.db.2024-03-29";
           "x.db.2024-02-10"; "x.db.2024-01-05"; "x.db.2024-03-15";
           "x.db.2024-03-22"]%string) scenario_today =
  fst <$> rotate_backups "backups/x"
    (Some ["x.db.2024-01-20"; "x.db.2024-03-01"; "x.db.2024-03-29";
           "x.db.2024-02-10"; "x.db.2024-01-05"; "x.db.2024-03-15";
           "x.db.2024-03-22"]%string) scenario_today.
Proof.
  apply (rotate_order_independent "backups/x"
    ["x.db.2024-01-20"; "x.db.2024-03-01"; "x.db.2024-03-29";
     "x.db.2024-02-10"; "x.db.2024-01-05"; "x.db.2024-03-15";
     "x.db.2024-03-22"]%string
    ["x.db.2024-03-01"; "x.db.2024-01-20"; "x.db.2024-03-29";
     "x.db.2024-02-10"; "x.db.2024-01-05"; "x.db.2024-03-15";
     "x.db.2024-03-22"]%string
    scenario_today scenario_catalog).
  - apply perm_swap.
  - vm_compute. reflexivity.
  - apply (bool_decide_unpack _). vm_compute. reflexivity.
Defined.

(** * Facts about the rest of the script *)

Lemma list_ascii_of_string_app (a b : string) :
  list_ascii_of_string (a +:+ b) = list_ascii_of_string a ++ list_ascii_of_string b.
Proof. induction a as [|c a IH]; simpl; [done|]. by rewrite IH. Qed.

Lemma digit_val_digit (n : Z) :
  0 <= n <= 9 -> Strptime.digit_val (Format.digit n) = n.
Proof.
  intros Hn. unfold Strptime.digit_val, Format.digit.
  rewrite nat_ascii_embedding by lia. lia.
Qed.

Lemma is_digit_digit (n : Z) : 0 <= n <= 9 -> Re.is_digit (Format.digit n) = true.
Proof.
  intros Hn. unfold Re.is_digit, Format.digit.
  rewrite nat_ascii_embedding by lia. unbool. lia.
Qed.

Lemma digit_digit_val (c : ascii) :
  Re.is_digit c = true -> Format.digit (Strptime.digit_val c) = c /\
  0 <= Strptime.digit_val c <= 9.
Proof.
  unfold Re.is_digit, Format.digit, Strptime.digit_val. intros H. unbool.
  split; [|lia].
  replace (48 + (Z.of_nat (nat_of_ascii c) - 48)) with (Z.of_nat (nat_of_ascii c)) by lia.
  by rewrite Nat2Z.id, ascii_nat_embedding.
Qed.

Lemma match_here_Some (s g rest : list ascii) :
  Re.match_here s = Some (g, rest) <->
  date_shaped g /\ s = "."%char :: g ++ rest.
Proof.
  unfold Re.match_here, date_shaped. split.
  - do 11 (destruct s as [|? s]; try done).
    destruct (_ && _) eqn:E; [|done]. intros [= <- <-].
    unfold Re.is_char in E. unbool.
    repeat match goal with H : _ /\ _ |- _ => destruct H end.
    repeat match goal with H : Ascii.eqb _ _ = true |- _ =>
      apply Ascii.eqb_eq in H; subst end.
    split; [|done]. do 8 eexists. by repeat split.
  - intros [(y1 & y2 & y3 & y4 & m1 & m2 & d1 & d2 & -> & H) ->]. simpl.
    destruct H as (-> & -> & -> & -> & -> & -> & -> & ->). done.
Qed.

Lemma at_dollar_true (rest : list ascii) :
  Re.at_dollar rest = true <-> rest = [] \/ rest = [Re.newline].
Proof.
  unfold Re.at_dollar. destruct rest as [|c [|? ?]]; split; try (by auto).
  - unfold Re.is_char. intros ->%Ascii.eqb_eq. by right.
  - intros [?|[= ->]]; [done|]. done.
  - by intros [?|?].
Qed.

Lemma search_cons (c : ascii) (s : list ascii) :
  Re.search (c :: s) =
  match Re.match_here (c :: s) with
  | Some (g, rest) => if Re.at_dollar rest then Some g else Re.search s
  | None => Re.search s
  end.
Proof. done. Qed.

(** [re.search] finds a date exactly in the names that end with a
    date-shaped suffix, or with one and a newline. *)
Lemma search_Some (s g : list ascii) :
  Re.search s = Some g <->
  date_shaped g /\
  exists stem, s = stem ++ "."%char :: g \/ s = stem ++ "."%char :: g ++ [Re.newline].
Proof.
  split.
  - induction s as [|c s IH]; [done|].
    rewrite search_cons.
    destruct (Re.match_here (c :: s)) as [[g' rest]|] eqn:Hm.
    + destruct (Re.at_dollar rest) eqn:Hd.
      * intros [= ->]. apply match_here_Some in Hm as [Hg Hs].
        split; [done|]. exists []. simpl.
        apply at_dollar_true in Hd as [->| ->]; [left|right];
          by rewrite Hs, ?app_nil_r.
      * intros H. destruct (IH H) as [Hg [stem Hs]]. split; [done|].
        exists (c :: stem). simpl. destruct Hs as [-> | ->]; auto.
    + intros H. destruct (IH H) as [Hg [stem Hs]]. split; [done|].
      exists (c :: stem). simpl. destruct Hs as [-> | ->]; auto.
  - intros [Hg [stem Hs]].
    assert (forall tail, tail = [] \/ tail = [Re.newline] ->
              Re.search (stem ++ "."%char :: g ++ tail) = Some g) as Hgen.
    { intros tail Htail. clear Hs.
      assert (Re.match_here ("."%char :: g ++ tail) = Some (g, tail)) as Hfin
        by (by apply match_here_Some).
      induction stem as [|c stem IH].
      - simpl app. rewrite search_cons, Hfin.
        by rewrite (proj2 (at_dollar_true tail) Htail).
      - simpl app. rewrite search_cons.
        destruct (Re.match_here (c :: stem ++ "."%char :: g ++ tail))
          as [[g' rest]|] eqn:Hm; [|done].
        destruct (Re.at_dollar rest) eqn:Hd; [|done].
        (* an earlier match cannot end at the end of the name *)
        exfalso.
        apply match_here_Some in Hm as [Hg' Hs'].
        destruct Hg as (y1 & y2 & y3 & y4 & m1 & m2 & d1 & d2 & -> & Hdig).
        destruct Hg' as (a1 & a2 & a3 & a4 & b1 & b2 & c1 & c2 & -> & Hdig').
        apply at_dollar_true in Hd.
        pose proof (f_equal length Hs') as Hlen.
        pose proof (f_equal last Hs') as Hlast.
        simpl in Hlen. rewrite ?length_app in Hlen. simpl in Hlen.
        destruct Htail as [-> | ->], Hd as [-> | ->]; simpl in Hlen; try lia.
        destruct stem as [|? stem]; [|simpl in Hlen; lia].
        simpl in Hlast. injection Hlast as ->.
        by destruct Hdig as (_ & _ & _ & _ & _ & _ & _ & ?). }
    destruct Hs as [-> | ->].
    + rewrite <- (app_nil_r g) at 1. apply Hgen. by left.
    + apply Hgen. by right.
Qed.

Lemma digits4 n :
  0 <= n <= 9999 ->
  0 <= n / 1000 <= 9 /\ 0 <= n / 100 mod 10 <= 9 /\
  0 <= n / 10 mod 10 <= 9 /\ 0 <= n mod 10 <= 9 /\
  1000 * (n / 1000) + 100 * (n / 100 mod 10) + 10 * (n / 10 mod 10) + n mod 10 = n.
Proof. intros. Z.to_euclidean_division_equations; lia. Qed.

Lemma digits2 n :
  0 <= n <= 99 ->
  0 <= n / 10 <= 9 /\ 0 <= n mod 10 <= 9 /\ 10 * (n / 10) + n mod 10 = n.
Proof. intros. Z.to_euclidean_division_equations; lia. Qed.

Lemma undigits4 a b c d :
  0 <= a <= 9 -> 0 <= b <= 9 -> 0 <= c <= 9 -> 0 <= d <= 9 ->
  let n := 1000 * a + 100 * b + 10 * c + d in
  n / 1000 = a /\ n / 100 mod 10 = b /\ n / 10 mod 10 = c /\ n mod 10 = d.
Proof. intros. subst n. Z.to_euclidean_division_equations; lia. Qed.

Lemma undigits2 a b :
  0 <= a <= 9 -> 0 <= b <= 9 ->
  (10 * a + b) / 10 = a /\ (10 * a + b) mod 10 = b.
Proof. intros. Z.to_euclidean_division_equations; lia. Qed.

Lemma valid_day_le_31 (x : date) : Date.valid_date x -> Date.day x <= 31.
Proof.
  intros (_ & Hm & Hd)%valid_date_fields.
  pose proof (year_length (Date.year x) (Date.month x) Hm) as [_ Hy].
  unfold Date._days_in_month in Hd.
  destruct ((Date.month x =? 2) && Date._is_leap (Date.year x)); [lia|].
  assert (Date.index Date._DAYS_IN_MONTH (Date.month x) <= 31); [|lia].
  pose proof (month_cases _ Hm) as Hc.
  repeat (destruct Hc as [->|Hc]; [vm_compute; congruence|]).
  rewrite Hc. vm_compute. congruence.
Qed.

Lemma isoformat_date_shaped (x : date) :
  Date.valid_date x -> date_shaped (Format.isoformat_chars x).
Proof.
  intros Hv. pose proof (valid_day_le_31 x Hv) as Hd31.
  apply valid_date_fields in Hv as (Hy & Hm & Hd).
  destruct (digits4 (Date.year x) ltac:(lia)) as (? & ? & ? & ? & _).
  destruct (digits2 (Date.month x) ltac:(lia)) as (? & ? & _).
  destruct (digits2 (Date.day x) ltac:(lia)) as (? & ? & _).
  unfold Format.isoformat_chars, Format.pad4, Format.pad2. simpl.
  do 8 eexists. split; [reflexivity|].
  repeat split; by apply is_digit_digit.
Qed.

Lemma strptime_isoformat (x : date) :
  Date.valid_date x -> Strptime.strptime (Format.isoformat_chars x) = Ok x.
Proof.
  intros Hv. pose proof (valid_day_le_31 x Hv) as Hd31.
  pose proof Hv as (Hy & Hm & Hd)%valid_date_fields.
  destruct (digits4 (Date.year x) ltac:(lia)) as (? & ? & ? & ? & Ey).
  destruct (digits2 (Date.month x) ltac:(lia)) as (? & ? & Em).
  destruct (digits2 (Date.day x) ltac:(lia)) as (? & ? & Ed).
  unfold Format.isoformat_chars, Format.pad4, Format.pad2, Strptime.strptime.
  simpl.
  unfold Strptime.num4, Strptime.num2.
  rewrite !digit_val_digit by done. rewrite Ey, Em, Ed.
  unfold Strptime.month_re, Strptime.day_re, Date.date_new.
  unfold Date.valid_date in Hv. rewrite Hv.
  destruct ((1 <=? Date.month x) && (Date.month x <=? 12) &&
            ((1 <=? Date.day x) && (Date.day x <=? 31))) eqn:E.
  - by destruct x.
  - unbool. lia.
Qed.

Lemma strptime_inv (g : list ascii) (x : date) :
  date_shaped g -> Strptime.strptime g = Ok x ->
  Date.valid_date x /\ g = Format.isoformat_chars x.
Proof.
  intros (y1 & y2 & y3 & y4 & m1 & m2 & d1 & d2 & -> & H) Hs.
  split; [by eapply strptime_valid|].
  destruct H as (Hy1 & Hy2 & Hy3 & Hy4 & Hm1 & Hm2 & Hd1 & Hd2).
  unfold Strptime.strptime in Hs. simpl in Hs.
  destruct (Strptime.month_re _ && Strptime.day_re _); [|done].
  unfold Date.date_new in Hs. destruct (Date.valid _ _ _); [|done].
  injection Hs as <-.
  unfold Format.isoformat_chars, Format.pad4, Format.pad2. simpl.
  unfold Strptime.num4, Strptime.num2.
  apply digit_digit_val in Hy1 as [E1 B1], Hy2 as [E2 B2], Hy3 as [E3 B3],
    Hy4 as [E4 B4], Hm1 as [E5 B5], Hm2 as [E6 B6], Hd1 as [E7 B7], Hd2 as [E8 B8].
  destruct (undigits4 _ _ _ _ B1 B2 B3 B4) as (-> & -> & -> & ->).
  destruct (undigits2 _ _ B5 B6) as (-> & ->).
  destruct (undigits2 _ _ B7 B8) as (-> & ->).
  by rewrite E1, E2, E3, E4, E5, E6, E7, E8.
Qed.

Lemma parse_backup_date_Some (f : string) (x : date) :
  parse_backup_date f = Ok (Some x) <->
  Date.valid_date x /\
  exists stem,
    f = stem +:+ "." +:+ Format.isoformat x \/
    f = stem +:+ "." +:+ Format.isoformat x +:+ String Re.newline "".
Proof.
  unfold parse_backup_date, Format.isoformat. split.
  - destruct (Re.search (list_ascii_of_string f)) as [g|] eqn:Hs; [|done].
    apply search_Some in Hs as [Hg [stem Hs]].
    destruct (Strptime.strptime g) as [x'|e] eqn:Hp; [|done]. simpl.
    intros [= ->]. apply strptime_inv in Hp as [Hv ->]; [|done].
    split; [done|]. exists (string_of_list_ascii stem).
    rewrite <- (string_of_list_ascii_of_string f).
    destruct Hs as [-> | ->]; [left|right];
      rewrite <- (string_of_list_ascii_of_string
                    (string_of_list_ascii stem +:+ _));
      f_equal; rewrite !list_ascii_of_string_app,
        !list_ascii_of_string_of_list_ascii; simpl; try done.
  - intros [Hv [stem Hf]].
    assert (Re.search (list_ascii_of_string f) = Some (Format.isoformat_chars x))
      as ->.
    { apply search_Some. split; [by apply isoformat_date_shaped|].
      exists (list_ascii_of_string stem).
      destruct Hf as [-> | ->]; [left|right];
        rewrite !list_ascii_of_string_app,
          ?list_ascii_of_string_of_list_ascii; simpl; try done. }
    by rewrite strptime_isoformat.
Qed.

Lemma listed_files (app_dir : string) (names : list string) :
  b_file <$> (names ≫= listed app_dir) = filter (fun f => dated f = true) names.
Proof.
  induction names as [|f names IH]; [done|].
  rewrite bind_cons, fmap_app, IH. unfold listed.
  destruct (parse_backup_date f) as [[x|]|e] eqn:E; simpl.
  - rewrite filter_cons_True; [done|]. unfold dated. by rewrite E.
  - rewrite filter_cons_False; [done|]. unfold dated. by rewrite E.
  - rewrite filter_cons_False; [done|]. unfold dated. by rewrite E.
Qed.

Lemma listed_spec (app_dir f : string) (b : backup) :
  b ∈ listed app_dir f <->
  parse_backup_date f = Ok (Some (b_date b)) /\ b_file b = f /\
  b_path b = path_join app_dir f.
Proof.
  unfold listed. destruct (parse_backup_date f) as [[x|]|e]; split.
  - by intros ->%list_elem_of_singleton.
  - intros ([= ->] & <- & Hp). destruct b. simpl in *. subst. by left.
  - by intros ?%elem_of_nil.
  - by intros [? _].
  - by intros ?%elem_of_nil.
  - by intros [? _].
Qed.

(** Dates of the calendar are ordered as their ordinals. *)
Lemma geb_toordinal (a b : date) :
  Date.valid_date a -> Date.valid_date b ->
  Date.geb a b = true <-> Date.toordinal b <= Date.toordinal a.
Proof. intros Ha Hb. unfold Date.geb. by apply toordinal_mono. Qed.

Lemma catalog_exact_sorted_aux (app_dir : string) (dir : option (list string))
    (backups : list backup) :
  get_existing_backups app_dir dir = Ok backups ->
  StronglySorted
    (fun x y => Date.toordinal (b_date y) <= Date.toordinal (b_date x)) backups.
Proof.
  intros Hcat.
  pose proof (get_existing_backups_valid _ _ _ Hcat) as Hval.
  pose proof (get_existing_backups_sorted _ _ _ Hcat) as Hsort.
  clear Hcat. induction Hsort as [|x l Hl IH Hx]; constructor.
  - apply IH. by inv Hval.
  - inv Hval. rewrite Forall_forall in *. intros y Hy.
    apply geb_toordinal; auto.
Qed.

Lemma catalog_facts (app_dir : string) (names : list string)
    (backups : list backup) :
  get_existing_backups app_dir (Some names) = Ok backups ->
  b_file <$> backups ≡ₚ filter (fun f => dated f = true) names /\
  Forall (fun b => parse_backup_date (b_file b) = Ok (Some (b_date b)) /\
                   b_path b = path_join app_dir (b_file b)) backups.
Proof.
  intros [_ ->]%get_existing_backups_Ok. split.
  - unfold sort_newest_first. rewrite stable_sort_Permutation.
    by rewrite listed_files.
  - apply Forall_forall. intros b Hb. unfold sort_newest_first in Hb.
    rewrite stable_sort_Permutation in Hb.
    apply list_elem_of_bind in Hb as (f & Hb & _).
    apply listed_spec in Hb as (Hp & <- & ?). done.
Qed.

Lemma gate_answers (app_dir : string) (dir : option (list string))
    (today : date) (backups : list backup) :
  get_existing_backups app_dir dir = Ok backups ->
  (should_backup app_dir dir today false = Ok true <->
   forall b, b ∈ backups -> 7 < Date.days_between today (b_date b)) /\
  (should_backup app_dir dir today false = Ok false <->
   exists b, b ∈ backups /\ Date.days_between today (b_date b) <= 7).
Proof.
  intros Hcat.
  pose proof (catalog_exact_sorted_aux app_dir dir backups Hcat) as Hs.
  unfold should_backup. rewrite Hcat. simpl.
  destruct backups as [|newest others].
  - split; split; try done.
    + intros _ b Hb. by apply elem_of_nil in Hb.
    + by intros (b & Hb%elem_of_nil & _).
  - inv Hs. rewrite Forall_forall in *.
    unfold Date.days_between in *.
    destruct (Z.leb_spec (Date.toordinal today - Date.toordinal (b_date newest)) 7)
      as [Hle|Hgt]; split; split; try done.
    + intros H. specialize (H newest ltac:(left)). lia.
    + intros _. exists newest. split; [left|done].
    + intros _ b [->|Hb]%elem_of_cons; [done|].
      match goal with H : forall x, x ∈ others -> _ |- _ => specialize (H b Hb) end.
      lia.
    + intros (b & [->|Hb]%elem_of_cons & Hd); [lia|].
      match goal with H : forall x, x ∈ others -> _ |- _ => specialize (H b Hb) end.
      lia.
Qed.

(** ** More on the rotation *)

Lemma rotate_parts (backups : list backup) (today : date) (d : decision) :
  rotate backups today = Ok d ->
  keep d `sublist_of` backups /\ delete d `sublist_of` backups /\
  forall b, b ∈ keep d -> b_path b ∉ b_path <$> delete d.
Proof.
  intros Hrot.
  pose proof (not_deleted_kept backups today d Hrot) as Hk.
  destruct (Nat.leb_spec (length backups) 4) as [Hl|Hl].
  - rewrite rotate_small in Hrot by done. injection Hrot as <-. simpl.
    repeat split; [done|apply sublist_nil_l|].
    intros b _. apply not_elem_of_nil.
  - destruct (rotate_large backups today d Hl Hrot)
      as (c & new & skipped & _ & _ & _ & _ & _ & E).
    rewrite E in *. simpl in *.
    repeat split; try apply sublist_filter.
    intros b Hb. rewrite <- Hk in Hb.
    by apply list_elem_of_filter in Hb as [? _].
Qed.

Lemma rotate_backups_facts (app_dir : string)
    (names : list string) (today : date) (d : decision)
    (dir' : option (list string)) :
  rotate_backups app_dir (Some names) today = Ok (d, dir') ->
  dir' = Some (filter (fun f => f ∉ b_file <$> delete d) names) /\
  (forall f, f ∈ names -> dated f = false ->
     f ∈ filter (fun f => f ∉ b_file <$> delete d) names) /\
  (forall b, b ∈ keep d ->
     b_file b ∈ filter (fun f => f ∉ b_file <$> delete d) names) /\
  (forall b, b ∈ delete d -> b_file b ∈ names /\ dated (b_file b) = true).
Proof.
  intros Hrun. unfold rotate_backups in Hrun.
  destruct (get_existing_backups app_dir (Some names)) as [backups|e] eqn:Hcat;
    [|done].
  simpl in Hrun.
  destruct (rotate backups today) as [d0|e] eqn:Hrot; [|done].
  simpl in Hrun. injection Hrun as -> <-.
  destruct (rotate_parts backups today d Hrot) as (Hks & Hds & Hdisj).
  destruct (catalog_facts app_dir names backups Hcat) as (Hfiles & Hall).
  rewrite Forall_forall in Hall.
  assert (forall b, b ∈ backups -> b_file b ∈ names /\ dated (b_file b) = true)
    as Hin.
  { intros b Hb.
    assert (b_file b ∈ b_file <$> backups) as Hf by (by apply list_elem_of_fmap_2).
    rewrite Hfiles in Hf. apply list_elem_of_filter in Hf as [? ?]. done. }
  assert (forall f, path_join app_dir f ∈ b_path <$> delete d <->
                    f ∈ b_file <$> delete d) as Hpath.
  { intros f. rewrite !list_elem_of_fmap. split.
    - intros (b & Hp & Hb). exists b. split; [|done].
      assert (b ∈ backups) as Hb' by (by eapply elem_of_sublist).
      destruct (Hall b Hb') as [_ Hbp]. rewrite Hbp in Hp.
      by apply path_join_inj in Hp.
    - intros (b & -> & Hb). exists b. split; [|done].
      assert (b ∈ backups) as Hb' by (by eapply elem_of_sublist).
      by destruct (Hall b Hb') as [_ ->]. }
  split; [|split; [|split]].
  - simpl. f_equal. unfold remove_all. apply filter_ext_in.
    intros f _. by rewrite Hpath.
  - intros f Hf Hnd. apply list_elem_of_filter. split; [|done].
    intros (b & -> & Hb)%list_elem_of_fmap.
    assert (b ∈ backups) as Hb' by (by eapply elem_of_sublist).
    destruct (Hin b Hb') as [_ Hd]. congruence.
  - intros b Hb.
    assert (b ∈ backups) as Hb' by (by eapply elem_of_sublist).
    apply list_elem_of_filter. split; [|by apply Hin].
    rewrite <- Hpath. destruct (Hall b Hb') as [_ <-]. by apply Hdisj.
  - intros b Hb. apply Hin. by eapply elem_of_sublist.
Qed.

(** The first element of a sorted list is the first of the least elements
    of the input. *)
Lemma head_stable_sort {A} (before : A -> A -> bool) (l : list A) (x : A) :
  (forall a b, before a b = false -> before b a = true) ->
  (forall a b c, before a b = true -> before b c = true -> before a c = true) ->
  head (stable_sort before l) = Some x ->
  exists l1 l2, l = l1 ++ x :: l2 /\
    (forall y, y ∈ l1 -> before y x = false) /\
    (forall y, y ∈ l2 -> before x y = true).
Proof.
  intros Htot Htr. revert x. induction l as [|a l IH]; intros x; [done|].
  simpl. destruct (stable_sort before l) as [|h t] eqn:Hs.
  - apply stable_sort_nil_inv in Hs as ->. simpl. intros [= <-].
    exists [], []. repeat split; intros y Hy; by apply elem_of_nil in Hy.
  - destruct (IH h eq_refl) as (l1 & l2 & -> & H1 & H2). simpl.
    destruct (before a h) eqn:E; simpl; intros [= <-].
    + exists [], (l1 ++ h :: l2). repeat split.
      * intros y Hy. by apply elem_of_nil in Hy.
      * intros y [Hy|[->|Hy]%elem_of_cons]%elem_of_app; [|done|].
        -- apply (Htr a h y); [done|]. apply Htot. by apply H1.
        -- apply (Htr a h y); [done|]. by apply H2.
    + exists (a :: l1), l2. repeat split; [|done].
      intros y [->|Hy]%elem_of_cons; [done|by apply H1].
Qed.

Lemma oldest_of_least (rest : list backup) (k : month_key) (b : backup) :
  oldest_of (group_by_month rest) k = Some b ->
  forall b', b' ∈ rest -> month_of b' = k ->
    Date.leb (b_date b) (b_date b') = true.
Proof.
  unfold oldest_of, sort_oldest_first. rewrite group_by_month_lookup.
  intros Hh b' Hb' Hk.
  apply head_stable_sort in Hh as (l1 & l2 & E & H1 & H2).
  - assert (b' ∈ l1 ++ b :: l2) as Hin
      by (rewrite <- E; by apply list_elem_of_filter).
    apply elem_of_app in Hin as [Hin|[->|Hin]%elem_of_cons].
    + apply date_leb_total. by apply H1.
    + apply date_leb_refl.
    + by apply H2.
  - intros x y. apply date_leb_total.
  - intros x y z. apply date_leb_trans.
Qed.

(** The backups beyond the 4 newest that are kept are the oldest of their
    months. *)
Lemma monthly_kept_oldest (backups : list backup) cutoff new (b : backup) :
  b ∈ monthly_kept backups cutoff new ->
  b ∈ drop 4 backups /\
  oldest_of (group_by_month (drop 4 backups)) (month_of b) = Some b /\
  Date.geb (b_date b) cutoff = true.
Proof.
  unfold monthly_kept. intros [Hk Hb]%list_elem_of_filter.
  split; [done|].
  pose proof (kept_of_elem_of _ _ _ _ Hk) as (_ & _ & Hge).
  split; [|done].
  unfold kept_of in Hk. apply list_elem_of_omap in Hk as (k & _ & Hold).
  pose proof (oldest_of_group _ _ _ Hold) as [_ <-]. done.
Qed.

Lemma keep_beyond_four (backups : list backup) (today : date) (d : decision)
    (b : backup) :
  NoDup (b_path <$> backups) ->
  rotate backups today = Ok d ->
  b ∈ drop 4 backups -> b ∈ keep d ->
  exists cutoff,
    Date.sub_days today 365 = Ok cutoff /\
    oldest_of (group_by_month (drop 4 backups)) (month_of b) = Some b /\
    Date.geb (b_date b) cutoff = true.
Proof.
  intros Hnd Hrot Hb Hk.
  destruct (Nat.leb_spec (length backups) 4) as [Hl|Hl].
  { rewrite drop_ge in Hb by done. by apply elem_of_nil in Hb. }
  destruct (rotate_large_shape backups today d Hl Hnd Hrot)
    as (cutoff & new & Hcut & Hkeep & _).
  rewrite Hkeep in Hk. apply elem_of_app in Hk as [Hk|Hk].
  { by apply drop_not_in_take in Hk. }
  exists cutoff. split; [done|].
  by apply monthly_kept_oldest in Hk as (_ & ? & ?).
Qed.

(** ** Names of apps *)

Lemma lower_char_idem (c : ascii) :
  Str.lower_char (Str.lower_char c) = Str.lower_char c.
Proof. by destruct c as [[] [] [] [] [] [] [] []]. Qed.

Lemma isspace_lower_char (c : ascii) :
  Str.isspace (Str.lower_char c) = Str.isspace c.
Proof. by destruct c as [[] [] [] [] [] [] [] []]. Qed.

Lemma lstrip_blank (pre s : list ascii) :
  forallb Str.isspace pre = true ->
  Str.lstrip_chars (pre ++ s) = Str.lstrip_chars s.
Proof.
  induction pre as [|c pre IH]; [done|]. simpl.
  intros [Hc Hpre]%andb_prop. rewrite Hc. by apply IH.
Qed.

Lemma lstrip_app (a b : list ascii) :
  Str.lstrip_chars (a ++ b) =
  match Str.lstrip_chars a with
  | [] => Str.lstrip_chars b
  | _ => Str.lstrip_chars a ++ b
  end.
Proof.
  induction a as [|c a IH]; [done|]. simpl.
  destruct (Str.isspace c); [apply IH|done].
Qed.

Lemma lstrip_all_blank (s : list ascii) :
  forallb Str.isspace s = true -> Str.lstrip_chars s = [].
Proof.
  intros H. rewrite <- (app_nil_r s). by rewrite lstrip_blank.
Qed.

Lemma forallb_rev {A} (f : A -> bool) (l : list A) :
  forallb f l = true -> forallb f (rev l) = true.
Proof.
  rewrite !forallb_forall. intros H x Hx. apply H. by apply in_rev.
Qed.

Lemma strip_padded (pre s post : list ascii) :
  forallb Str.isspace pre = true -> forallb Str.isspace post = true ->
  Str.strip_chars (pre ++ s ++ post) = Str.strip_chars s.
Proof.
  intros Hpre Hpost. unfold Str.strip_chars, Str.rstrip_chars.
  rewrite !rev_app_distr, <- app_assoc.
  rewrite (lstrip_blank (rev post)) by (by apply forallb_rev).
  rewrite lstrip_app.
  destruct (Str.lstrip_chars (rev s)) as [|c t] eqn:E.
  - rewrite (lstrip_all_blank (rev pre)) by (by apply forallb_rev). done.
  - rewrite <- E. rewrite rev_app_distr, rev_involutive.
    by rewrite lstrip_blank.
Qed.

Lemma lower_chars_blank (s : list ascii) :
  forallb Str.isspace (Str.lower_chars s) = forallb Str.isspace s.
Proof.
  induction s as [|c s IH]; [done|]. simpl.
  by rewrite isspace_lower_char, IH.
Qed.

Lemma normalise_padded (pre s post : string) :
  blank pre = true -> blank post = true ->
  Str.strip (Str.lower (pre +:+ s +:+ post)) = Str.strip (Str.lower s).
Proof.
  intros Hpre Hpost. unfold Str.strip, Str.lower, blank in *.
  rewrite !list_ascii_of_string_of_list_ascii. f_equal.
  rewrite !list_ascii_of_string_app. unfold Str.lower_chars.
  rewrite !map_app. apply strip_padded.
  - etrans; [apply (lower_chars_blank (list_ascii_of_string pre))|done].
  - etrans; [apply (lower_chars_blank (list_ascii_of_string post))|done].
Qed.

Lemma lower_idem (s : string) : Str.lower (Str.lower s) = Str.lower s.
Proof.
  unfold Str.lower. rewrite list_ascii_of_string_of_list_ascii. f_equal.
  unfold Str.lower_chars. rewrite map_map. apply map_ext.
  intros c. apply lower_char_idem.
Qed.

Lemma dict_get_Some {A} (d : list (string * A)) (k : string) (a : A) :
  dict_get d k = Some a -> (k, a) ∈ d.
Proof.
  unfold dict_get. destruct (find _ d) as [[k' a']|] eqn:E; [|done].
  simpl. intros [= ->]. apply find_some in E as [Hin Heq].
  apply String.eqb_eq in Heq. simpl in Heq. subst k'.
  by apply list_elem_of_In.
Qed.

Lemma APPS_keys (P : string) (n : string) :
  n ∈ dict_keys (APPS P) ->
  exists config db_path,
    get_app_config P n = Done config /\
    dict_get (APPS P) n = Some config /\
    db_remote_path config = Some db_path /\
    String.eqb db_path "" = false /\
    service_name config = n.
Proof.
  unfold dict_keys, APPS. simpl. rewrite !elem_of_cons, elem_of_nil.
  intros [->|[->|[->|[->|[->|[]]]]]];
    (eexists; eexists; split; [vm_compute; reflexivity|];
     split; [vm_compute; reflexivity|]; by vm_compute).
Qed.

(** ** The new backup *)

Lemma take4_kept (backups : list backup) (today : date) (d : decision)
    (b : backup) :
  rotate backups today = Ok d -> b ∈ take 4 backups -> b ∈ keep d.
Proof.
  intros Hrot Hb.
  destruct (Nat.leb_spec (length backups) 4) as [Hl|Hl].
  - rewrite rotate_small in Hrot by done. injection Hrot as <-. simpl.
    by eapply elem_of_sublist; [|apply sublist_take].
  - destruct (rotate_large backups today d Hl Hrot)
      as (c & new & skipped & _ & _ & _ & _ & _ & ->). simpl.
    apply list_elem_of_filter. split; [by apply top_in_kept_paths|].
    by eapply elem_of_sublist; [|apply sublist_take].
Qed.

Lemma get_existing_backups_default (app_dir : string)
    (dir : option (list string)) :
  get_existing_backups app_dir dir =
  get_existing_backups app_dir (Some (default [] dir)).
Proof. by destruct dir. Qed.

Lemma catalog_elem_of (app_dir : string) (names : list string)
    (backups : list backup) (b : backup) :
  get_existing_backups app_dir (Some names) = Ok backups ->
  b ∈ backups <-> exists f, f ∈ names /\ b ∈ listed app_dir f.
Proof.
  intros [_ ->]%get_existing_backups_Ok. unfold sort_newest_first.
  rewrite stable_sort_Permutation, list_elem_of_bind.
  split; intros (g & ? & ?); by exists g.
Qed.

Lemma get_existing_backups_sub (app_dir : string) (names names' : list string)
    (backups' : list backup) :
  names ⊆ names' ->
  get_existing_backups app_dir (Some names') = Ok backups' ->
  exists backups, get_existing_backups app_dir (Some names) = Ok backups.
Proof.
  intros Hsub [Hp _]%get_existing_backups_Ok.
  eexists. apply get_existing_backups_Ok. split; [|done].
  rewrite Forall_forall in *. intros f Hf. apply Hp. by apply Hsub.
Qed.

(** The file of today's date comes first in the catalog when the gate has
    let the backup through. *)
Lemma fresh_backup_first (app_dir : string) (dir : option (list string))
    (names' : list string) (stem : string) (gate today : date)
    (backups' : list backup) :
  should_backup app_dir dir gate false = Ok true ->
  Date.valid_date today ->
  Date.toordinal gate <= Date.toordinal today ->
  names' ≡ₚ (stem +:+ "." +:+ Format.isoformat today) :: default [] dir ->
  get_existing_backups app_dir (Some names') = Ok backups' ->
  exists others,
    backups' =
      backup_at app_dir (stem +:+ "." +:+ Format.isoformat today) today
      :: others.
Proof.
  intros Hgate Hv Hle Hperm Hcat'.
  set (f := stem +:+ "." +:+ Format.isoformat today) in *.
  assert (parse_backup_date f = Ok (Some today)) as Hpf.
  { apply parse_backup_date_Some. split; [done|]. exists stem. by left. }
  destruct (get_existing_backups_sub app_dir (default [] dir) names' backups')
    as [backups Hcat]; [|done|].
  { intros g Hg. rewrite Hperm. by right. }
  pose proof Hcat as Hcat0. rewrite <- get_existing_backups_default in Hcat0.
  destruct (gate_answers app_dir dir gate backups Hcat0) as [[Hold _] _].
  specialize (Hold Hgate).
  assert (backup_at app_dir f today ∈ backups') as Hnew.
  { apply (catalog_elem_of _ _ _ _ Hcat'). exists f. split.
    - rewrite Hperm. by left.
    - apply listed_spec. done. }
  assert (forall b, b ∈ backups' -> b <> backup_at app_dir f today ->
            Date.toordinal (b_date b) < Date.toordinal today) as Holder.
  { intros b Hb Hne.
    apply (catalog_elem_of _ _ _ _ Hcat') in Hb as (g & Hg & Hb).
    rewrite Hperm in Hg. apply elem_of_cons in Hg as [->|Hg].
    - apply listed_spec in Hb as (Hp & Hf & Hpath). exfalso. apply Hne.
      destruct b. simpl in *. unfold backup_at. congruence.
    - assert (b ∈ backups) as Hb'.
      { apply (catalog_elem_of _ _ _ _ Hcat). by exists g. }
      specialize (Hold b Hb'). unfold Date.days_between in Hold. lia. }
  pose proof (catalog_exact_sorted_aux _ _ _ Hcat') as Hsort.
  destruct backups' as [|h others]; [by apply elem_of_nil in Hnew|].
  exists others. f_equal.
  destruct (decide (h = backup_at app_dir f today)) as [|Hne]; [done|].
  exfalso. specialize (Holder h ltac:(left) Hne).
  apply elem_of_cons in Hnew as [Heq|Hnew]; [done|].
  inv Hsort. rewrite Forall_forall in *.
  match goal with H : forall x, _ ∈ others -> _ |- _ =>
    specialize (H _ Hnew) end.
  simpl in *. lia.
Qed.

(** The run of [rotate_backups] after the download: the new backup is
    kept, its file stays, and the gate then stays closed for 7 days. *)
Lemma fresh_backup_kept (app_dir : string) (dir dir' : option (list string))
    (names' : list string) (stem : string) (gate today rotation : date)
    (d : decision) :
  should_backup app_dir dir gate false = Ok true ->
  Date.valid_date today ->
  Date.toordinal gate <= Date.toordinal today ->
  names' ≡ₚ (stem +:+ "." +:+ Format.isoformat today) :: default [] dir ->
  rotate_backups app_dir (Some names') rotation = Ok (d, dir') ->
  let f := stem +:+ "." +:+ Format.isoformat today in
  head (keep d) = Some (backup_at app_dir f today) /\
  (exists names'', dir' = Some names'' /\ f ∈ names'') /\
  forall later, Date.days_between later today <= 7 ->
    should_backup app_dir dir' later false = Ok false.
Proof.
  intros Hgate Hv Hle Hperm Hrun f.
  pose proof Hrun as Hfacts. apply rotate_backups_facts in Hfacts
    as (Hdir' & _ & Hkept & _).
  unfold rotate_backups in Hrun.
  destruct (get_existing_backups app_dir (Some names')) as [backups'|e]
    eqn:Hcat'; [|done].
  simpl in Hrun.
  destruct (rotate backups' rotation) as [d0|e] eqn:Hrot; [|done].
  simpl in Hrun. injection Hrun as -> Hd'.
  destruct (fresh_backup_first app_dir dir names' stem gate today backups'
              Hgate Hv Hle Hperm Hcat') as [others ->].
  fold f in Hrot, Hcat' |- *.
  assert (backup_at app_dir f today ∈ keep d) as Hin.
  { eapply take4_kept; [done|]. simpl. left. }
  pose proof (not_deleted_kept _ _ _ Hrot) as Hk.
  assert (exists k, keep d = backup_at app_dir f today :: k) as [k Hkd].
  { rewrite <- Hk in Hin |- *.
    apply list_elem_of_filter in Hin as [Hnd _].
    rewrite filter_cons_True by done. by eexists. }
  split; [by rewrite Hkd|]. split.
  - eexists. split; [done|]. by apply (Hkept (backup_at app_dir f today)).
  - intros later Hlater. rewrite <- Hd'. simpl.
    pose proof (get_existing_backups_remove_all app_dir names' _ (delete d)
                  Hcat') as Hcat''.
    rewrite Hk in Hcat''.
    destruct (gate_answers app_dir _ later _ Hcat'') as [_ [_ Hclosed]].
    apply Hclosed. exists (backup_at app_dir f today). done.
Qed.

(** ** The removals *)

Lemma remove_all_nil (app_dir : string) (names : list string) :
  remove_all app_dir [] names = names.
Proof.
  unfold remove_all. apply filter_all, Forall_forall.
  intros f _. apply not_elem_of_nil.
Qed.

Lemma remove_all_cons (app_dir : string) (b : backup) (gone : list backup)
    (names : list string) :
  remove_all app_dir gone
    (filter (fun f => path_join app_dir f <> b_path b) names) =
  remove_all app_dir (b :: gone) names.
Proof.
  unfold remove_all. rewrite list_filter_filter. apply filter_ext_in.
  intros f _. rewrite fmap_cons, not_elem_of_cons. tauto.
Qed.

(** The loop of the removals takes away the files of the backups before
    the first one whose removal fails, and no other. *)
Lemma remove_each_inv (w : world) (app_dir : string) (l : list backup)
    (names : list string) (dir' : option (list string)) (o : outcome unit) :
  remove_each w app_dir l (Some names) = (dir', o) ->
  exists gone left,
    l = gone ++ left /\
    dir' = Some (remove_all app_dir gone names) /\
    Forall (fun b => os_remove w (b_path b) = true) gone /\
    ((left = [] /\ o = Done tt) \/ (left <> [] /\ o = Abort OSError)).
Proof.
  revert names. induction l as [|b l IH]; intros names; simpl.
  - intros [= <- <-]. exists [], []. rewrite remove_all_nil.
    repeat split; auto.
  - unfold mbind, fsio_bind, remove_file. simpl.
    destruct (bool_decide _ && os_remove w (b_path b)) eqn:Hok.
    + apply andb_prop in Hok as [_ Hrm]. intros Hrun.
      destruct (IH _ Hrun) as (gone & left & -> & -> & Hgone & Ho).
      exists (b :: gone), left. rewrite remove_all_cons.
      repeat split; auto.
    + intros [= <- <-]. exists [], (b :: l). rewrite remove_all_nil.
      repeat split; auto.
Qed.

(** What a run of [rotate_backups] on the directory can leave behind. *)
Lemma rotating_inv (w : world) (app_dir : string) (today : date)
    (names : list string) (dir' : option (list string)) (o : outcome unit) :
  rotating w app_dir today (Some names) = (dir', o) ->
  (exists e,
     dir' = Some names /\ o = Abort (Error e) /\
     (get_existing_backups app_dir (Some names) = Raise e \/
      exists backups,
        get_existing_backups app_dir (Some names) = Ok backups /\
        rotate backups today = Raise e)) \/
  (exists backups d gone left,
     get_existing_backups app_dir (Some names) = Ok backups /\
     rotate backups today = Ok d /\
     delete d = gone ++ left /\
     dir' = Some (remove_all app_dir gone names) /\
     Forall (fun b => os_remove w (b_path b) = true) gone /\
     ((left = [] /\ o = Done tt) \/ (left <> [] /\ o = Abort OSError))).
Proof.
  unfold rotating, mbind, fsio_bind, reading, pure.
  destruct (get_existing_backups app_dir (Some names)) as [backups|e] eqn:Hcat;
    simpl; [|intros [= <- <-]; left; exists e; auto].
  destruct (rotate backups today) as [d|e] eqn:Hrot; simpl.
  - intros Hrun. right.
    destruct (remove_each_inv _ _ _ _ _ _ Hrun) as (gone & left & ? & ? & ? & ?).
    by exists backups, d, gone, left.
  - intros [= <- <-]. left. exists e. repeat split; auto.
    right. by exists backups.
Qed.

(** A run in which every removal goes through is a run of
    [rotate_backups]. *)
Lemma rotating_Done (w : world) (app_dir : string) (today : date)
    (names : list string) (dir' : option (list string)) :
  rotating w app_dir today (Some names) = (dir', Done tt) ->
  exists d, rotate_backups app_dir (Some names) today = Ok (d, dir').
Proof.
  intros [(e & _ & ? & _)|(backups & d & gone & left & Hcat & Hrot & Hd & ->
                            & _ & [[-> _]|[_ ?]])]%rotating_inv; [done| |done].
  exists d. unfold rotate_backups. rewrite Hcat. simpl. rewrite Hrot. simpl.
  rewrite app_nil_r in Hd. by rewrite Hd.
Qed.


(** ** The runs of [backup_app] *)

(** What a run of [backup_app] can leave behind. *)
Lemma backup_app_inv (P B : string) (w : world) (now : clock)
    (app_name : string) (force : bool) (dir dir' : option (list string))
    (r : outcome (option bool)) :
  backup_app P B w now app_name force dir = (dir', r) ->
  (dir' = dir /\ r <> Done (Some true)) \/
  exists config db_path,
    get_app_config P app_name = Done config /\
    db_remote_path config = Some db_path /\
    String.eqb db_path "" = false /\
    should_backup (path_join B app_name) dir (at_gate now) force = Ok true /\
    let names := default [] dir in
    let f := backup_filename db_path (at_name now) in
    (dir' = Some names /\ r <> Done (Some true)) \/
    ((f ∉ names) /\ dir' = Some (names ++ [f]) /\ r <> Done (Some true)) \/
    ((f ∉ names) /\
     exists o,
       rotating w (path_join B app_name) (at_rotate now)
         (Some (names ++ [f])) = (dir', o) /\
       r = match o with
           | Done _ => Done (Some true)
           | Abort x => Abort x
           end).
Proof.
  unfold backup_app, mbind, fsio_bind, pure, reading, mret, fsio_ret,
    makedirs, path_exists, run_scp.
  destruct (get_app_config P app_name) as [config|x] eqn:Hconfig;
    [|intros [= <- <-]; by left].
  destruct (db_remote_path config) as [db_path|] eqn:Hdb;
    [|intros [= <- <-]; by left].
  destruct (String.eqb db_path "") eqn:Hne; [intros [= <- <-]; by left|].
  destruct (should_backup _ dir _ force) as [[]|e] eqn:Hgate; simpl;
    [|intros [= <- <-]; by left|intros [= <- <-]; by left].
  destruct (run_ssh_quiet w _) as [out|x]; [|intros [= <- <-]; by left].
  destruct (negb (String.eqb (fst (fst out)) "exists"));
    [intros [= <- <-]; by left|].
  destruct (run_ssh_quiet w _) as [out2|x]; [|intros [= <- <-]; by left].
  destruct (if isdigit (fst (fst out2)) then raised (int (fst (fst out2)))
            else Done 0) as [size|x]; [|intros [= <- <-]; by left].
  destruct (raised (kilobytes size)) as [[]|x]; [|intros [= <- <-]; by left].
  intros Hrun. right. exists config, db_path.
  split; [done|]. split; [done|]. split; [done|]. split; [done|]. simpl.
  revert Hrun. case_bool_decide as Hin; [intros [= <- <-]; by left|].
  destruct (_ssh_key w) as [key|x]; [|intros [= <- <-]; by left].
  destruct (scp_creates w).
  - destruct (subprocess_run w _) as [result|x].
    + destruct (negb (returncode result =? 0)).
      * intros [= <- <-]. right. left. repeat split; auto.
      * rewrite bool_decide_true by (simpl; apply elem_of_app; right; by left).
        destruct (rotating w _ _ _) as [dir'' o] eqn:Hrot.
        intros Hrun. right. right. split; [done|]. exists o.
        destruct o as [[]|x]; injection Hrun as <- <-; by split.
    + intros [= <- <-]. right. left. repeat split; auto.
  - destruct (subprocess_run w _) as [result|x].
    + destruct (negb (returncode result =? 0)).
      * intros [= <- <-]. by left.
      * simpl. rewrite bool_decide_false by done. intros [= <- <-]. by left.
    + intros [= <- <-]. by left.
Qed.

(** A run that returns [True] has downloaded the file of the day and has
    gone through [rotate_backups] with every removal. *)
Lemma backup_app_True (P B : string) (w : world) (now : clock)
    (app_name : string) (force : bool) (dir dir' : option (list string)) :
  backup_app P B w now app_name force dir = (dir', Done (Some true)) ->
  exists config db_path d,
    get_app_config P app_name = Done config /\
    db_remote_path config = Some db_path /\
    should_backup (path_join B app_name) dir (at_gate now) force = Ok true /\
    (backup_filename db_path (at_name now) ∉ default [] dir) /\
    rotate_backups (path_join B app_name)
      (Some (default [] dir ++ [backup_filename db_path (at_name now)]))
      (at_rotate now) = Ok (d, dir').
Proof.
  intros Hrun.
  apply backup_app_inv in Hrun
    as [[_ Hr]|(c & p & Hc & Hp & _ & Hgate & Hcases)]; [done|].
  simpl in Hcases.
  destruct Hcases as [[_ Hr]|[(_ & _ & Hr)|(Hnot & o & Hrot & Hr)]];
    [done..|].
  destruct o as [[]|x]; [|done].
  apply rotating_Done in Hrot as [d Hrot]. by exists c, p, d.
Qed.

(** A run that finds the file of the day in the directory stops there. *)
Lemma backup_app_same_day (P B : string) (w : world) (now : clock)
    (app_name : string) (force : bool) (names : list string)
    (config : app_config) (db_path : string) :
  get_app_config P app_name = Done config ->
  db_remote_path config = Some db_path ->
  backup_filename db_path (at_name now) ∈ names ->
  exists r, backup_app P B w now app_name force (Some names) = (Some names, r) /\
            r <> Done (Some true).
Proof.
  intros Hconfig Hdb Hin.
  destruct (backup_app P B w now app_name force (Some names)) as [dir' r]
    eqn:Hrun.
  apply backup_app_inv in Hrun
    as [[-> Hr]|(c & p & Hc & Hp & _ & _ & Hcases)].
  - by exists r.
  - rewrite Hconfig in Hc. injection Hc as <-.
    rewrite Hdb in Hp. injection Hp as <-. simpl in Hcases.
    destruct Hcases as [[-> Hr]|[(Hnot & _)|(Hnot & _)]]; [by exists r|done..].
Qed.

(** An unforced run that the gate stops changes nothing. *)
Lemma backup_app_skips (P B : string) (w : world) (now : clock)
    (app_name : string) (dir : option (list string))
    (config : app_config) (db_path : string) :
  get_app_config P app_name = Done config ->
  db_remote_path config = Some db_path ->
  should_backup (path_join B app_name) dir (at_gate now) false = Ok false ->
  backup_app P B w now app_name false dir = (dir, Done None).
Proof.
  intros Hconfig Hdb Hgate.
  unfold backup_app, mbind, fsio_bind, pure, reading, mret, fsio_ret.
  rewrite Hconfig, Hdb. destruct (String.eqb db_path ""); [done|].
  by rewrite Hgate.
Qed.

Lemma parses_dated_name (stem : string) (today : date) :
  Date.valid_date today ->
  parse_backup_date (stem +:+ "." +:+ Format.isoformat today) = Ok (Some today).
Proof.
  intros Hv. apply parse_backup_date_Some. split; [done|]. exists stem. by left.
Qed.

(** The gate on a directory that got the file of today's date after the
    gate had let the backup through, and from which files of other backups
    have been removed since. *)
Lemma gate_closed_by_new_file (app_dir : string) (dir : option (list string))
    (stem : string) (gate today later : date) (gone : list backup) :
  should_backup app_dir dir gate false = Ok true ->
  Date.valid_date today ->
  Date.toordinal gate <= Date.toordinal today ->
  Date.days_between later today <= 7 ->
  let f := stem +:+ "." +:+ Format.isoformat today in
  f ∈ remove_all app_dir gone (default [] dir ++ [f]) ->
  should_backup app_dir
    (Some (remove_all app_dir gone (default [] dir ++ [f])))
    later false = Ok false.
Proof.
  intros Hgate Hv Hle Hlater f Hf.
  assert (exists backups, get_existing_backups app_dir dir = Ok backups)
    as [backups Hcat].
  { unfold should_backup in Hgate.
    destruct (get_existing_backups app_dir dir) as [l|e]; [by eexists|done]. }
  rewrite get_existing_backups_default in Hcat.
  apply get_existing_backups_Ok in Hcat as [Hp _].
  assert (exists backups', get_existing_backups app_dir
            (Some (default [] dir ++ [f])) = Ok backups') as [backups' Hcat'].
  { eexists. apply get_existing_backups_Ok. split; [|done].
    apply Forall_app. split; [done|]. apply Forall_singleton.
    eexists. by apply parses_dated_name. }
  destruct (fresh_backup_first app_dir dir (default [] dir ++ [f]) stem gate
              today backups' Hgate Hv Hle) as [others ->]; [|done|].
  { by rewrite Permutation_app_comm. }
  fold f in Hcat'.
  pose proof (get_existing_backups_remove_all app_dir _ _ gone Hcat') as Hcat''.
  apply list_elem_of_filter in Hf as [Hkept _].
  rewrite filter_cons_True in Hcat'' by done.
  unfold should_backup. rewrite Hcat''. simpl.
  destruct (Z.leb_spec (Date.days_between later today) 7); [done|lia].
Qed.

Lemma parse_backup_date_raise (f : string) (e : exn) :
  parse_backup_date f = Raise e -> e = ValueError.
Proof.
  unfold parse_backup_date.
  destruct (Re.search _) as [g|]; [|done].
  unfold Strptime.strptime.
  do 11 (destruct g as [|? g]; try by intros [= <-]).
  destruct (_ && _); [|by intros [= <-]].
  unfold Date.date_new. destruct (Date.valid _ _ _); [done|by intros [= <-]].
Qed.

Lemma collect_raise (app_dir : string) (names : list string)
    (acc : list backup) (e : exn) :
  collect app_dir names acc = Raise e -> e = ValueError.
Proof.
  revert acc. induction names as [|f names IH]; intros acc; [done|].
  rewrite collect_cons.
  destruct (parse_backup_date f) as [od|e'] eqn:E; [apply IH|].
  intros [= <-]. by apply parse_backup_date_raise in E.
Qed.

(** A name with the shape of a date that [strptime] rejects makes every
    listing of the directory raise [ValueError], whatever is added. *)
Lemma invalid_name_raises (app_dir : string) (names more : list string) :
  Exists (fun f => parse_backup_date f = Raise ValueError) names ->
  get_existing_backups app_dir (Some (names ++ more)) = Raise ValueError.
Proof.
  intros Hbad.
  destruct (get_existing_backups _ (Some (names ++ more))) as [l|e] eqn:E.
  - apply get_existing_backups_Ok in E as [Hp _].
    apply Forall_app in Hp as [Hp _].
    rewrite Forall_forall in Hp. apply Exists_exists in Hbad as (f & Hf & Hr).
    destruct (Hp f Hf) as [od Hod]. congruence.
  - unfold get_existing_backups in E.
    destruct (collect _ _ _) as [?|e'] eqn:Ec; [done|].
    simpl in E. injection E as <-. by apply collect_raise in Ec as ->.
Qed.

Lemma keep_at_most_16 (backups : list backup) (today : date) (d : decision) :
  NoDup (b_path <$> backups) ->
  rotate backups today = Ok d ->
  (length (keep d) <= 16)%nat.
Proof.
  intros Hnd Hrot.
  destruct (Nat.leb_spec (length backups) 4) as [Hl|Hl].
  - rewrite rotate_small in Hrot by done. injection Hrot as <-. simpl. lia.
  - destruct (rotate_large_shape backups today d Hl Hnd Hrot)
      as (cutoff & new & _ & -> & Hlen & _).
    rewrite length_app, length_take. lia.
Qed.

(** ** Dates written in a name *)

Lemma isoformat_date_shaped_digits (x : date) :
  0 <= Date.year x <= 9999 -> 0 <= Date.month x <= 99 ->
  0 <= Date.day x <= 99 ->
  date_shaped (Format.isoformat_chars x).
Proof.
  intros Hy Hm Hd.
  destruct (digits4 (Date.year x) Hy) as (? & ? & ? & ? & _).
  destruct (digits2 (Date.month x) Hm) as (? & ? & _).
  destruct (digits2 (Date.day x) Hd) as (? & ? & _).
  unfold Format.isoformat_chars, Format.pad4, Format.pad2. simpl.
  do 8 eexists. split; [reflexivity|].
  repeat split; by apply is_digit_digit.
Qed.

Lemma strptime_isoformat_invalid (x : date) :
  0 <= Date.year x <= 9999 -> 0 <= Date.month x <= 99 ->
  0 <= Date.day x <= 99 ->
  ~ Date.valid_date x ->
  Strptime.strptime (Format.isoformat_chars x) = Raise ValueError.
Proof.
  intros Hy Hm Hd Hnv.
  destruct (digits4 (Date.year x) Hy) as (? & ? & ? & ? & Ey).
  destruct (digits2 (Date.month x) Hm) as (? & ? & Em).
  destruct (digits2 (Date.day x) Hd) as (? & ? & Ed).
  unfold Format.isoformat_chars, Format.pad4, Format.pad2, Strptime.strptime.
  simpl.
  unfold Strptime.num4, Strptime.num2.
  rewrite !digit_val_digit by done. rewrite Ey, Em, Ed.
  destruct (_ && _); [|done].
  unfold Date.date_new. unfold Date.valid_date in Hnv.
  by destruct (Date.valid _ _ _).
Qed.

Lemma parse_written_date (stem f : string) (x : date) :
  0 <= Date.year x <= 9999 -> 0 <= Date.month x <= 99 ->
  0 <= Date.day x <= 99 ->
  f = stem +:+ "." +:+ Format.isoformat x \/
  f = stem +:+ "." +:+ Format.isoformat x +:+ String Re.newline "" ->
  (Date.valid_date x -> parse_backup_date f = Ok (Some x)) /\
  (~ Date.valid_date x -> parse_backup_date f = Raise ValueError).
Proof.
  intros Hy Hm Hd Hf. split.
  - intros Hv. apply parse_backup_date_Some. split; [done|]. by exists stem.
  - intros Hnv. unfold parse_backup_date.
    assert (Re.search (list_ascii_of_string f) = Some (Format.isoformat_chars x))
      as ->.
    { apply search_Some. split; [by apply isoformat_date_shaped_digits|].
      exists (list_ascii_of_string stem). unfold Format.isoformat in Hf.
      destruct Hf as [-> | ->]; [left|right];
        rewrite !list_ascii_of_string_app,
          ?list_ascii_of_string_of_list_ascii; simpl; try done. }
    by rewrite strptime_isoformat_invalid.
Qed.

(** * Further properties of the code *)

(** X1. On a name that ends in a dot and a date written as [YYYY-MM-DD]
    with four, two and two digits, or in this followed by one newline,
    [parse_backup_date] returns the date when it is a date of the calendar
    and raises [ValueError] when it is not. Every date it returns is a date
    of the calendar. *)
Theorem parse_backup_date_of_written_date (stem f : string) (x : date) :
  0 <= Date.year x <= 9999 -> 0 <= Date.month x <= 99 ->
  0 <= Date.day x <= 99 ->
  f = stem +:+ "." +:+ Format.isoformat x \/
  f = stem +:+ "." +:+ Format.isoformat x +:+ String Re.newline "" ->
  (Date.valid_date x -> parse_backup_date f = Ok (Some x)) /\
  (~ Date.valid_date x -> parse_backup_date f = Raise ValueError) /\
  (forall g y, parse_backup_date g = Ok (Some y) -> Date.valid_date y).
Proof.
  intros Hy Hm Hd Hf.
  destruct (parse_written_date stem f x Hy Hm Hd Hf) as [Hok Hraise].
  split; [done|]. split; [done|].
  by intros g y [? _]%parse_backup_date_Some.
Qed.

Lemma parse_backup_date_of_written_date_witness :
  (Date.valid_date (Date.mkdate 2024 2 30) ->
   parse_backup_date "x.db.2024-02-30" = Ok (Some (Date.mkdate 2024 2 30))) /\
  (~ Date.valid_date (Date.mkdate 2024 2 30) ->
   parse_backup_date "x.db.2024-02-30" = Raise ValueError) /\
  (forall g y, parse_backup_date g = Ok (Some y) -> Date.valid_date y).
Proof.
  apply (parse_backup_date_of_written_date "x.db" "x.db.2024-02-30"
           (Date.mkdate 2024 2 30)).
  - vm_compute. split; discriminate.
  - vm_compute. split; discriminate.
  - vm_compute. split; discriminate.
  - left. vm_compute. reflexivity.
Defined.

(** X2. The name [backup_app] gives the file of a day is read back by
    [parse_backup_date] as that day, whatever the path of the database; and
    the names of two different days differ. *)
Theorem backup_filename_round_trip (db_path : string) (today : date) :
  Date.valid_date today ->
  1000 <= Date.year today ->
  parse_backup_date (backup_filename db_path today) = Ok (Some today) /\
  forall other,
    backup_filename db_path other = backup_filename db_path today ->
    Date.valid_date other -> 1000 <= Date.year other ->
    other = today.
Proof.
  intros Hv _. unfold backup_filename, strftime_ymd.
  split; [by apply parses_dated_name|].
  intros other Heq Hv' _.
  pose proof (parses_dated_name (basename db_path) other Hv') as Hp.
  rewrite Heq, parses_dated_name in Hp by done. congruence.
Qed.

Lemma backup_filename_round_trip_witness :
  parse_backup_date
    (backup_filename "/home/ec2-user/taskschedule/data/database.db"
       (Date.mkdate 2026 2 5)) = Ok (Some (Date.mkdate 2026 2 5)) /\
  forall other,
    backup_filename "/home/ec2-user/taskschedule/data/database.db" other =
    backup_filename "/home/ec2-user/taskschedule/data/database.db"
      (Date.mkdate 2026 2 5) ->
    Date.valid_date other -> 1000 <= Date.year other ->
    other = Date.mkdate 2026 2 5.
Proof.
  apply (backup_filename_round_trip
           "/home/ec2-user/taskschedule/data/database.db"
           (Date.mkdate 2026 2 5)).
  - vm_compute. reflexivity.
  - vm_compute. discriminate.
Defined.

(** X3. The catalog of a directory holds the names with a date suffix, each
    once, with the date the name spells and the path in the directory, from
    the most recent to the oldest; the other names are not in it. *)
Theorem catalog_exact (app_dir : string) (names : list string)
    (backups : list backup) :
  get_existing_backups app_dir (Some names) = Ok backups ->
  b_file <$> backups ≡ₚ filter (fun f => dated f = true) names /\
  Forall (fun b => parse_backup_date (b_file b) = Ok (Some (b_date b)) /\
                   b_path b = path_join app_dir (b_file b)) backups /\
  StronglySorted
    (fun x y => Date.toordinal (b_date y) <= Date.toordinal (b_date x)) backups.
Proof.
  intros Hcat.
  pose proof (catalog_exact_sorted_aux _ _ _ Hcat) as Hsort.
  destruct (catalog_facts _ _ _ Hcat) as [Hfiles Hall].
  by repeat split.
Qed.

Lemma catalog_exact_witness :
  exists backups,
    get_existing_backups "backups/x"
      (Some ["x.db.2024-03-01"; "database.db.bak"; "x.db.2024-03-29"]%string)
      = Ok backups /\
    b_file <$> backups ≡ₚ
      filter (fun f => dated f = true)
        ["x.db.2024-03-01"; "database.db.bak"; "x.db.2024-03-29"]%string /\
    Forall (fun b => parse_backup_date (b_file b) = Ok (Some (b_date b)) /\
                     b_path b = path_join "backups/x" (b_file b)) backups /\
    StronglySorted
      (fun x y => Date.toordinal (b_date y) <= Date.toordinal (b_date x))
      backups.
Proof.
  eexists. split; [vm_compute; reflexivity|].
  apply (catalog_exact "backups/x"
           ["x.db.2024-03-01"; "database.db.bak"; "x.db.2024-03-29"]%string).
  vm_compute. reflexivity.
Defined.

(** X4. Without [force], [should_backup] answers [True] exactly when every
    backup of the catalog is more than 7 days older than [today], and
    [False] as soon as one backup is dated within the last 7 days, or today,
    or in the future. *)
Theorem should_backup_iff (app_dir : string) (dir : option (list string))
    (today : date) (backups : list backup) :
  get_existing_backups app_dir dir = Ok backups ->
  (should_backup app_dir dir today false = Ok true <->
   forall b, b ∈ backups -> 7 < Date.days_between today (b_date b)) /\
  (should_backup app_dir dir today false = Ok false <->
   exists b, b ∈ backups /\ Date.days_between today (b_date b) <= 7).
Proof. apply gate_answers. Qed.

Lemma should_backup_iff_witness :
  exists backups,
    get_existing_backups "backups/x"
      (Some ["x.db.2024-03-18"; "x.db.2024-03-25"]%string) = Ok backups /\
    (should_backup "backups/x"
       (Some ["x.db.2024-03-18"; "x.db.2024-03-25"]%string)
       (Date.mkdate 2024 4 1) false = Ok true <->
     forall b, b ∈ backups ->
       7 < Date.days_between (Date.mkdate 2024 4 1) (b_date b)) /\
    (should_backup "backups/x"
       (Some ["x.db.2024-03-18"; "x.db.2024-03-25"]%string)
       (Date.mkdate 2024 4 1) false = Ok false <->
     exists b, b ∈ backups /\
       Date.days_between (Date.mkdate 2024 4 1) (b_date b) <= 7).
Proof.
  eexists. split; [vm_compute; reflexivity|].
  apply (should_backup_iff "backups/x"
           (Some ["x.db.2024-03-18"; "x.db.2024-03-25"]%string)
           (Date.mkdate 2024 4 1)).
  vm_compute. reflexivity.
Defined.



(** X6. Of the backups at the positions from 4 on, [rotate] keeps at most
    one per month, and the one it keeps is the oldest of its month at these
    positions. When the oldest one of a month is older than the cutoff, all
    the backups of that month at these positions are deleted, also those
    that are not older than the cutoff. *)
Theorem monthly_tier_keeps_oldest (backups : list backup) (today : date)
    (d : decision) :
  NoDup (b_path <$> backups) ->
  rotate backups today = Ok d ->
  forall b b',
    b ∈ drop 4 backups -> b' ∈ drop 4 backups ->
    month_of b' = month_of b ->
    (b ∈ keep d ->
       Date.leb (b_date b) (b_date b') = true /\ (b' ∈ keep d -> b' = b)) /\
    (forall cutoff,
       Date.sub_days today 365 = Ok cutoff ->
       Date.geb (b_date b') cutoff = false ->
       b ∈ delete d).
Proof.
  intros Hnd Hrot b b' Hb Hb' Hm.
  assert (b ∈ keep d ->
          Date.leb (b_date b) (b_date b') = true /\ (b' ∈ keep d -> b' = b))
    as Hkeep.
  { intros Hk.
    destruct (keep_beyond_four backups today d b Hnd Hrot Hb Hk)
      as (cutoff & _ & Hold & _).
    split; [by eapply oldest_of_least|].
    intros Hk'.
    destruct (keep_beyond_four backups today d b' Hnd Hrot Hb' Hk')
      as (_ & _ & Hold' & _).
    rewrite Hm in Hold'. congruence. }
  split; [done|].
  intros cutoff Hcut Hold.
  assert (b ∈ backups) as Hin by (by eapply elem_of_sublist, sublist_drop).
  assert (b ∈ keep d \/ b ∈ delete d) as [Hk|?]; [|exfalso|done].
  { destruct (Nat.leb_spec (length backups) 4) as [Hl|Hl].
    - rewrite drop_ge in Hb by done. by apply elem_of_nil in Hb.
    - destruct (rotate_large backups today d Hl Hrot)
        as (c & new & skipped & _ & _ & _ & _ & _ & ->). simpl.
      destruct (decide (b_path b ∈ kept_paths backups c new)); [left|right];
        by apply list_elem_of_filter. }
  destruct (Hkeep Hk) as [Hle _].
  destruct (keep_beyond_four backups today d b Hnd Hrot Hb Hk)
    as (cutoff' & Hcut' & _ & Hge).
  rewrite Hcut in Hcut'. injection Hcut' as <-.
  unfold Date.geb in *.
  by rewrite (date_leb_trans _ _ _ Hge Hle) in Hold.
Qed.

Lemma monthly_tier_keeps_oldest_witness :
  exists d,
    rotate scenario_catalog scenario_today = Ok d /\
    forall b b',
      b ∈ drop 4 scenario_catalog -> b' ∈ drop 4 scenario_catalog ->
      month_of b' = month_of b ->
      (b ∈ keep d ->
         Date.leb (b_date b) (b_date b') = true /\ (b' ∈ keep d -> b' = b)) /\
      (forall cutoff,
         Date.sub_days scenario_today 365 = Ok cutoff ->
         Date.geb (b_date b') cutoff = false ->
         b ∈ delete d).
Proof.
  eexists. split; [vm_compute; reflexivity|].
  apply (monthly_tier_keeps_oldest scenario_catalog scenario_today).
  - apply (bool_decide_unpack _). vm_compute. reflexivity.
  - vm_compute. reflexivity.
Defined.

(** X7. The cap of 12 is the only reason for which a month that is not too
    old is given up: when fewer than 12 backups are kept beyond the 4
    newest, every month whose oldest backup at the positions from 4 on is
    not older than the cutoff has a backup of that date kept. *)
Theorem eligible_month_kept_below_cap (backups : list backup) (today : date)
    (d : decision) (cutoff : date) :
  NoDup (b_path <$> backups) ->
  rotate backups today = Ok d ->
  Date.sub_days today 365 = Ok cutoff ->
  (length (drop 4 (keep d)) < 12)%nat ->
  forall b,
    b ∈ drop 4 backups ->
    (forall b', b' ∈ drop 4 backups -> month_of b' = month_of b ->
       Date.leb (b_date b) (b_date b') = true) ->
    Date.geb (b_date b) cutoff = true ->
    exists b0,
      b0 ∈ keep d /\ b0 ∈ drop 4 backups /\
      month_of b0 = month_of b /\ b_date b0 = b_date b.
Proof.
  intros Hnd Hrot Hcut Hlen b Hb Hleast Hge.
  destruct (Nat.leb_spec (length backups) 4) as [Hl|Hl].
  { rewrite drop_ge in Hb by done. by apply elem_of_nil in Hb. }
  destruct (rotate_large backups today d Hl Hrot)
    as (c & new & skipped & Hcut' & Hkeys & Hskip & _ & _ & ->).
  rewrite Hcut in Hcut'. injection Hcut' as <-.
  simpl in *. rewrite keep_shape in * by done.
  assert (length (take 4 backups) = 4%nat) as Ht by (rewrite length_take; lia).
  rewrite drop_app_length' in Hlen by done.
  set (rest := drop 4 backups) in *. set (monthly := group_by_month rest) in *.
  fold (monthly_kept backups cutoff new) in *.
  (* the loop looked at every month *)
  assert (NoDup (month_of <$> kept_of monthly cutoff new)) as Hndk.
  { unfold monthly. rewrite kept_of_months. apply NoDup_filter.
    pose proof (sorted_keys_NoDup monthly) as Hk. rewrite Hkeys in Hk.
    by apply NoDup_app in Hk as (? & _ & _). }
  assert (skipped = []) as ->.
  { destruct skipped as [|k skipped]; [done|]. exfalso.
    specialize (Hskip ltac:(done)).
    assert (length (kept_of monthly cutoff new) <=
            length (monthly_kept backups cutoff new))%nat as Hle.
    { apply submseteq_length, NoDup_submseteq; [by eapply NoDup_fmap_1|].
      intros x Hx. apply list_elem_of_filter. split; [done|].
      by apply kept_of_elem_of in Hx as (? & _). }
    pose proof (kept_of_length rest cutoff new) as Hkl.
    unfold monthly_kept, monthly, rest in *. lia. }
  rewrite app_nil_r in Hkeys.
  assert (month_of b ∈ sorted_keys monthly) as Hk
    by (apply sorted_keys_group; by apply list_elem_of_fmap_2).
  pose proof (group_nonempty rest (month_of b) Hk) as Hne.
  destruct (oldest_of monthly (month_of b)) as [b0|] eqn:Hold.
  2:{ exfalso. apply Hne. unfold oldest_of in Hold. apply head_None in Hold.
      by apply stable_sort_nil_inv in Hold. }
  pose proof (oldest_of_group _ _ _ Hold) as [Hb0 Hm0].
  assert (b_date b0 = b_date b) as Hd0.
  { apply date_leb_antisym; [by eapply oldest_of_least|by apply Hleast]. }
  exists b0. repeat split; try done.
  apply elem_of_app. right. apply list_elem_of_filter. split; [|done].
  unfold kept_of. apply list_elem_of_omap. exists (month_of b).
  split; [|done]. apply list_elem_of_filter. split; [|by rewrite <- Hkeys].
  unfold passes. fold monthly. rewrite Hold. by rewrite Hd0.
Qed.

Lemma eligible_month_kept_below_cap_witness :
  exists d cutoff,
    rotate scenario_catalog scenario_today = Ok d /\
    Date.sub_days scenario_today 365 = Ok cutoff /\
    forall b,
      b ∈ drop 4 scenario_catalog ->
      (forall b', b' ∈ drop 4 scenario_catalog -> month_of b' = month_of b ->
         Date.leb (b_date b) (b_date b') = true) ->
      Date.geb (b_date b) cutoff = true ->
      exists b0,
        b0 ∈ keep d /\ b0 ∈ drop 4 scenario_catalog /\
        month_of b0 = month_of b /\ b_date b0 = b_date b.
Proof.
  eexists. eexists. split; [vm_compute; reflexivity|].
  split; [vm_compute; reflexivity|].
  apply (eligible_month_kept_below_cap scenario_catalog scenario_today).
  - apply (bool_decide_unpack _). vm_compute. reflexivity.
  - vm_compute. reflexivity.
  - vm_compute. reflexivity.
  - vm_compute. lia.
Defined.

(** X8. When the gate has let a backup through and the file of today's date
    has come into the directory, at whatever place of the listing,
    [rotate_backups] keeps the new backup as the first of [keep], leaves its
    file in the directory, and [should_backup] then answers [False] on
    every day up to 7 days later. *)
Theorem fresh_backup_kept_in_any_listing (app_dir : string)
    (dir dir' : option (list string)) (names' : list string) (stem : string)
    (gate today rotation : date) (d : decision) :
  should_backup app_dir dir gate false = Ok true ->
  Date.valid_date today ->
  Date.toordinal gate <= Date.toordinal today ->
  names' ≡ₚ (stem +:+ "." +:+ Format.isoformat today) :: default [] dir ->
  rotate_backups app_dir (Some names') rotation = Ok (d, dir') ->
  let f := stem +:+ "." +:+ Format.isoformat today in
  head (keep d) = Some (backup_at app_dir f today) /\
  (exists names'', dir' = Some names'' /\ f ∈ names'') /\
  forall later, Date.days_between later today <= 7 ->
    should_backup app_dir dir' later false = Ok false.
Proof. apply fresh_backup_kept. Qed.

Lemma fresh_backup_kept_in_any_listing_witness :
  exists d dir',
    rotate_backups "backups/x"
      (Some ["x.db.2024-03-18"; "x.db.2024-04-02"; "x.db.2024-03-25"]%string)
      (Date.mkdate 2024 4 2) = Ok (d, dir') /\
    head (keep d) =
      Some (backup_at "backups/x" "x.db.2024-04-02" (Date.mkdate 2024 4 2)) /\
    (exists names'', dir' = Some names'' /\ "x.db.2024-04-02"%string ∈ names'') /\
    forall later, Date.days_between later (Date.mkdate 2024 4 2) <= 7 ->
      should_backup "backups/x" dir' later false = Ok false.
Proof.
  eexists. eexists. split; [vm_compute; reflexivity|].
  apply (fresh_backup_kept_in_any_listing "backups/x"
           (Some ["x.db.2024-03-18"; "x.db.2024-03-25"]%string) _
           ["x.db.2024-03-18"; "x.db.2024-04-02"; "x.db.2024-03-25"]%string
           "x.db" (Date.mkdate 2024 4 2) (Date.mkdate 2024 4 2)
           (Date.mkdate 2024 4 2)).
  - vm_compute. reflexivity.
  - vm_compute. reflexivity.
  - vm_compute. discriminate.
  - apply perm_swap.
  - vm_compute. reflexivity.
Defined.

(** X9. Every name [get_app_names] returns is one that [get_app_config]
    accepts, with a path of the database that is not empty: called on these
    names, [backup_app] neither exits on an unknown app nor returns for want
    of a database path. There is at least one name, and the names are
    pairwise different. *)
Theorem get_app_names_accepted (P arg : string) (names : list string) :
  get_app_names P arg = Done names ->
  names <> [] /\ NoDup names /\
  Forall (fun n => exists config db_path,
            get_app_config P n = Done config /\
            db_remote_path config = Some db_path /\
            String.eqb db_path "" = false /\
            service_name config = n) names.
Proof.
  unfold get_app_names.
  destruct (String.eqb _ "all").
  - intros [= <-]. split; [done|]. split.
    + unfold dict_keys, APPS. simpl.
      apply (bool_decide_unpack _). by vm_compute.
    + apply Forall_forall. intros n Hn.
      destruct (APPS_keys P n Hn) as (c & p & H1 & _ & H2 & H3 & H4).
      by exists c, p.
  - destruct (dict_get _ _) as [c|] eqn:E; [|done].
    intros [= <-]. split; [done|]. split; [apply NoDup_singleton|].
    apply Forall_singleton.
    apply dict_get_Some in E.
    assert (Str.strip (Str.lower arg) ∈ dict_keys (APPS P)) as Hn.
    { unfold dict_keys. apply list_elem_of_fmap. by exists (Str.strip (Str.lower arg), c). }
    destruct (APPS_keys P _ Hn) as (c' & p & H1 & _ & H2 & H3 & H4).
    by exists c', p.
Qed.

Lemma get_app_names_accepted_witness :
  exists names,
    get_app_names example_projects " ALL " = Done names /\
    names <> [] /\ NoDup names /\
    Forall (fun n => exists config db_path,
              get_app_config example_projects n = Done config /\
              db_remote_path config = Some db_path /\
              String.eqb db_path "" = false /\
              service_name config = n) names.
Proof.
  eexists. split; [vm_compute; reflexivity|].
  apply (get_app_names_accepted example_projects " ALL ").
  vm_compute. reflexivity.
Defined.

(** X10. [get_app_config] and [get_app_names] take a name in any case and
    with whitespace around it: padding the name with whitespace or replacing
    it by its lower case changes nothing. *)
Theorem app_names_insensitive (P pre s post : string) :
  blank pre = true -> blank post = true ->
  get_app_config P (pre +:+ s +:+ post) = get_app_config P s /\
  get_app_names P (pre +:+ s +:+ post) = get_app_names P s /\
  get_app_config P (Str.lower s) = get_app_config P s /\
  get_app_names P (Str.lower s) = get_app_names P s.
Proof.
  intros Hpre Hpost. unfold get_app_config, get_app_names.
  rewrite normalise_padded by done. by rewrite lower_idem.
Qed.

Lemma app_names_insensitive_witness :
  get_app_config example_projects ("  " +:+ "TaskSchedule" +:+ String Re.newline "") =
    get_app_config example_projects "TaskSchedule" /\
  get_app_names example_projects ("  " +:+ "TaskSchedule" +:+ String Re.newline "") =
    get_app_names example_projects "TaskSchedule" /\
  get_app_config example_projects (Str.lower "TaskSchedule") =
    get_app_config example_projects "TaskSchedule" /\
  get_app_names example_projects (Str.lower "TaskSchedule") =
    get_app_names example_projects "TaskSchedule".
Proof.
  apply (app_names_insensitive example_projects "  " "TaskSchedule"
           (String Re.newline "")).
  - vm_compute. reflexivity.
  - vm_compute. reflexivity.
Defined.



(** X12. After an unforced run of [backup_app] that returns [True], the file
    of the day is in the directory, [should_backup] answers [False] up to 7
    days later, and an unforced run in these days returns [None] and leaves
    the directory as it is. *)
Theorem backup_app_fresh_backup_kept (P B : string) (w : world) (now : clock)
    (app_name : string) (dir dir' : option (list string)) :
  backup_app P B w now app_name false dir = (dir', Done (Some true)) ->
  Date.valid_date (at_name now) ->
  1000 <= Date.year (at_name now) ->
  Date.toordinal (at_gate now) <= Date.toordinal (at_name now) ->
  exists config db_path names',
    get_app_config P app_name = Done config /\
    db_remote_path config = Some db_path /\
    dir' = Some names' /\
    backup_filename db_path (at_name now) ∈ names' /\
    (forall later, Date.days_between later (at_name now) <= 7 ->
       should_backup (path_join B app_name) dir' later false = Ok false) /\
    (forall w2 now2,
       Date.days_between (at_gate now2) (at_name now) <= 7 ->
       backup_app P B w2 now2 app_name false dir' = (dir', Done None)).
Proof.
  intros Hrun Hv _ Hle.
  apply backup_app_True in Hrun as (c & p & d & Hc & Hp & Hgate & Hnot & Hrot).
  unfold backup_filename, strftime_ymd in *.
  destruct (fresh_backup_kept _ dir dir' _ (basename p) _ (at_name now) _ d
              Hgate Hv Hle (Permutation_app_comm (default [] dir) [_]) Hrot)
    as (_ & (names' & -> & Hin) & Hclosed).
  exists c, p, names'. repeat split; auto.
  intros w2 now2 Hlater. eapply backup_app_skips; eauto.
Qed.

Lemma backup_app_fresh_backup_kept_witness :
  exists dir' config db_path names',
    backup_app example_projects example_backups (example_world 0 true always)
      (all_day (Date.mkdate 2024 4 1)) "tifootball" false
      (Some ["tifootball.db.2024-03-01"; "notes.txt"]%string) =
      (dir', Done (Some true)) /\
    get_app_config example_projects "tifootball" = Done config /\
    db_remote_path config = Some db_path /\
    dir' = Some names' /\
    backup_filename db_path (Date.mkdate 2024 4 1) ∈ names' /\
    (forall later, Date.days_between later (Date.mkdate 2024 4 1) <= 7 ->
       should_backup (path_join example_backups "tifootball") dir' later false
       = Ok false) /\
    (forall w2 now2,
       Date.days_between (at_gate now2) (Date.mkdate 2024 4 1) <= 7 ->
       backup_app example_projects example_backups w2 now2 "tifootball" false
         dir' = (dir', Done None)).
Proof.
  eexists.
  assert (backup_app example_projects example_backups (example_world 0 true always)
            (all_day (Date.mkdate 2024 4 1)) "tifootball" false
            (Some ["tifootball.db.2024-03-01"; "notes.txt"]%string) =
          (_, Done (Some true))) as Hrun by (vm_compute; reflexivity).
  destruct (backup_app_fresh_backup_kept _ _ _ _ _ _ _ Hrun)
    as (config & db_path & names' & H); [vm_compute; reflexivity
      |vm_compute; discriminate|vm_compute; discriminate|].
  exists config, db_path, names'. split; [exact Hrun|exact H].
Defined.

(** X13. A run of [backup_app] that does not return [True] but leaves the file
    of the day behind (an [scp] that fails or runs out of time after it has
    created the file, or a rotation that raises) stops the later runs: on
    the same day every run, forced or not, leaves the directory as it is and
    does not return [True]; and when the run was unforced, the unforced runs
    of the next 7 days return [None]. *)
Theorem failed_download_blocks_the_day (P B : string) (w : world)
    (now : clock) (app_name : string) (force : bool)
    (dir dir' : option (list string)) (r : outcome (option bool))
    (f : string) :
  backup_app P B w now app_name force dir = (dir', r) ->
  r <> Done (Some true) ->
  f ∈ default [] dir' -> f ∉ default [] dir ->
  (forall w2 now2 force2,
     at_name now2 = at_name now ->
     exists r2, backup_app P B w2 now2 app_name force2 dir' = (dir', r2) /\
                r2 <> Done (Some true)) /\
  (force = false ->
   Date.valid_date (at_name now) ->
   1000 <= Date.year (at_name now) ->
   Date.toordinal (at_gate now) <= Date.toordinal (at_name now) ->
   forall w2 now2,
     Date.days_between (at_gate now2) (at_name now) <= 7 ->
     backup_app P B w2 now2 app_name false dir' = (dir', Done None)).
Proof.
  intros Hrun Hr Hf Hnf.
  apply backup_app_inv in Hrun
    as [[-> _]|(c & p & Hc & Hp & _ & Hgate & Hcases)]; [done|].
  simpl in Hcases.
  assert (exists gone,
            dir' = Some (remove_all (path_join B app_name) gone
                           (default [] dir ++
                            [backup_filename p (at_name now)])))
    as [gone ->].
  { destruct Hcases as [[-> _]|[(_ & -> & _)|(_ & o & Hrot & _)]]; [done| |].
    - exists []. by rewrite remove_all_nil.
    - apply rotating_inv in Hrot
        as [(e & -> & _)|(_ & _ & gone & _ & _ & _ & _ & -> & _)].
      + exists []. by rewrite remove_all_nil.
      + by exists gone. }
  assert (f ∈ remove_all (path_join B app_name) gone
                (default [] dir ++ [backup_filename p (at_name now)])) as Hf2
    by exact Hf.
  assert (backup_filename p (at_name now) ∈
            remove_all (path_join B app_name) gone
              (default [] dir ++ [backup_filename p (at_name now)])) as Hnew.
  { pose proof Hf2 as Hf'. apply list_elem_of_filter in Hf' as [_ Hf'].
    apply elem_of_app in Hf' as [?|Hf'%list_elem_of_singleton]; [done|].
    by subst f. }
  split.
  - intros w2 now2 force2 Hsame.
    apply (backup_app_same_day P B w2 now2 app_name force2 _ c p Hc Hp).
    by rewrite Hsame.
  - intros -> Hv _ Hle w2 now2 Hlater.
    apply (backup_app_skips P B w2 now2 app_name _ c p Hc Hp).
    unfold backup_filename, strftime_ymd in *.
    by apply (gate_closed_by_new_file _ dir (basename p) (at_gate now)).
Qed.

Lemma failed_download_blocks_the_day_witness :
  exists dir' r,
    backup_app example_projects example_backups (example_world 1 true always)
      (all_day (Date.mkdate 2024 4 1)) "tifootball" false
      (Some ["tifootball.db.2024-03-01"]%string) = (dir', r) /\
    (forall w2 now2 force2,
       at_name now2 = Date.mkdate 2024 4 1 ->
       exists r2,
         backup_app example_projects example_backups w2 now2 "tifootball"
           force2 dir' = (dir', r2) /\
         r2 <> Done (Some true)) /\
    (forall w2 now2,
       Date.days_between (at_gate now2) (Date.mkdate 2024 4 1) <= 7 ->
       backup_app example_projects example_backups w2 now2 "tifootball" false
         dir' = (dir', Done None)).
Proof.
  eexists. eexists. split; [vm_compute; reflexivity|].
  destruct (failed_download_blocks_the_day example_projects example_backups
              (example_world 1 true always) (all_day (Date.mkdate 2024 4 1))
              "tifootball" false (Some ["tifootball.db.2024-03-01"]%string)
              (Some ["tifootball.db.2024-03-01"; "tifootball.db.2024-04-01"]%string)
              (Done (Some false)) "tifootball.db.2024-04-01"%string)
    as [Hsame Hweek].
  - vm_compute. reflexivity.
  - discriminate.
  - apply (bool_decide_unpack _). vm_compute. reflexivity.
  - apply (bool_decide_unpack _). vm_compute. reflexivity.
  - split; [exact Hsame|].
    apply Hweek; [reflexivity|vm_compute; reflexivity
                  |vm_compute; discriminate|vm_compute; discriminate].
Defined.

(** X14. While the directory of an app holds a name with the shape of a date
    that [strptime] rejects, no run of [backup_app] returns [True] and none
    removes a file; an unforced run for an app of [APPS] raises [ValueError]
    and leaves the directory as it is. *)
Theorem invalid_name_blocks_backup_app (P B : string) (w : world)
    (now : clock) (app_name : string) (force : bool) (names : list string)
    (dir' : option (list string)) (r : outcome (option bool)) :
  Exists (fun f => parse_backup_date f = Raise ValueError) names ->
  backup_app P B w now app_name force (Some names) = (dir', r) ->
  r <> Done (Some true) /\
  (forall f, f ∈ names -> f ∈ default [] dir') /\
  (force = false -> app_name ∈ dict_keys (APPS P) ->
   dir' = Some names /\ r = Abort (Error ValueError)).
Proof.
  intros Hbad Hrun.
  pose proof (invalid_name_raises (path_join B app_name) names) as Hraise.
  assert (r <> Done (Some true) /\
          forall f, f ∈ names -> f ∈ default [] dir') as [Hr Hkeeps].
  { pose proof Hrun as Hinv. apply backup_app_inv in Hinv
      as [[-> ?]|(c & p & _ & _ & _ & _ & Hcases)]; [done|].
    simpl in Hcases.
    destruct Hcases as [[-> ?]|[(_ & -> & ?)|(_ & o & Hrot & ->)]]; [done| |].
    - split; [done|]. intros f Hf. apply elem_of_app. by left.
    - apply rotating_inv in Hrot
        as [(e & -> & -> & _)|(backups & _ & _ & _ & Hcat & _)].
      + split; [done|]. intros f Hf. apply elem_of_app. by left.
      + by rewrite Hraise in Hcat. }
  split; [done|]. split; [done|].
  - intros -> Hkey.
    destruct (APPS_keys P app_name Hkey) as (c & p & Hc & _ & Hp & Hne & _).
    revert Hrun.
    unfold backup_app, mbind, fsio_bind, pure, reading, mret, fsio_ret.
    rewrite Hc, Hp, Hne. unfold should_backup.
    specialize (Hraise [] Hbad). rewrite app_nil_r in Hraise. rewrite Hraise.
    simpl. by intros [= <- <-].
Qed.

Lemma invalid_name_blocks_backup_app_witness :
  exists dir' r,
    backup_app example_projects example_backups (example_world 0 true always)
      (all_day (Date.mkdate 2024 4 1)) "tifootball" false
      (Some ["tifootball.db.2024-02-30"]%string) = (dir', r) /\
    r <> Done (Some true) /\
    (forall f, f ∈ ["tifootball.db.2024-02-30"]%string -> f ∈ default [] dir') /\
    (false = false -> "tifootball"%string ∈ dict_keys (APPS example_projects) ->
     dir' = Some ["tifootball.db.2024-02-30"]%string /\
     r = Abort (Error ValueError)).
Proof.
  eexists. eexists. split; [vm_compute; reflexivity|].
  apply (invalid_name_blocks_backup_app example_projects example_backups
           (example_world 0 true always) (all_day (Date.mkdate 2024 4 1))
           "tifootball" false ["tifootball.db.2024-02-30"]%string).
  - apply Exists_cons_hd. vm_compute. reflexivity.
  - vm_compute. reflexivity.
Defined.

(** X15. After a run of [backup_app] that returns [True], at most 16 files of
    the directory have a date suffix. *)
Theorem backup_app_bounds_directory (P B : string) (w : world) (now : clock)
    (app_name : string) (force : bool) (dir dir' : option (list string)) :
  backup_app P B w now app_name force dir = (dir', Done (Some true)) ->
  NoDup (default [] dir) ->
  (length (filter (fun f => dated f = true) (default [] dir')) <= 16)%nat.
Proof.
  intros Hrun Hnd.
  apply backup_app_True in Hrun as (c & p & d & _ & _ & _ & Hnot & Hrot).
  unfold rotate_backups in Hrot.
  destruct (get_existing_backups _ _) as [backups'|e] eqn:Hcat'; [|done].
  simpl in Hrot.
  destruct (rotate backups' (at_rotate now)) as [d0|e] eqn:Hr; [|done].
  simpl in Hrot. injection Hrot as -> <-. simpl.
  assert (NoDup (b_path <$> backups')) as Hndp.
  { eapply get_existing_backups_NoDup; [|done].
    intros names [= <-]. apply NoDup_app. split; [done|]. split.
    - intros x Hx ->%list_elem_of_singleton. done.
    - apply NoDup_singleton. }
  pose proof (get_existing_backups_remove_all _ _ _ (delete d) Hcat') as Hcat''.
  rewrite (not_deleted_kept _ _ _ Hr) in Hcat''.
  apply catalog_facts in Hcat'' as [Hfiles _].
  rewrite <- Hfiles, length_fmap. by eapply keep_at_most_16.
Qed.

Lemma backup_app_bounds_directory_witness :
  exists dir',
    backup_app example_projects example_backups (example_world 0 true always)
      (all_day (Date.mkdate 2024 4 1)) "tifootball" false
      (Some ["tifootball.db.2024-03-01"; "notes.txt"]%string) =
      (dir', Done (Some true)) /\
    (length (filter (fun f => dated f = true) (default [] dir')) <= 16)%nat.
Proof.
  eexists.
  assert (backup_app example_projects example_backups (example_world 0 true always)
            (all_day (Date.mkdate 2024 4 1)) "tifootball" false
            (Some ["tifootball.db.2024-03-01"; "notes.txt"]%string) =
          (_, Done (Some true))) as Hrun by (vm_compute; reflexivity).
  split; [exact Hrun|].
  apply (backup_app_bounds_directory _ _ _ _ _ _ _ _ Hrun).
  apply (bool_decide_unpack _). vm_compute. reflexivity.
Defined.
